(** * Amplitude and phase scattering matrices of the ice-crystal notebooks

    The two notebooks (GMRES and dense assembly) end with the same three
    code cells:

    - cell 14 builds the angle grid [theta] and the direction matrix
      [points];
    - cell 16 turns the two far-field patterns [ffp_z], [ffp_y] into the
      amplitude scattering matrix [A11], [A12], [A21], [A22];
    - cell 17 turns the amplitude matrix into the sixteen entries
      [S11] .. [S44] of the phase (Mueller) matrix.

    This file embeds those cells and proves their properties.

    Modelling conventions.
    - [float64] values are idealised as the real numbers [R] and
      [complex128] values as pairs of reals: rounding, overflow and NaN
      are outside the model.  The theorems on the formulas that a cell
      evaluates, on shapes, on exceptions and on bindings do not depend
      on this idealisation.  An identity between two values that the
      code computes along different paths does: module [Binary64]
      embeds cell 17 once more over binary64 numbers, to measure such
      an identity on the values that the hardware computes.
    - A one-dimensional numpy array is a [list]; an array of shape
      [(3, N)] is the list of its [N] columns, so that its three rows
      have the same length by construction.
    - numpy's elementwise operators follow the broadcasting rule for
      one-dimensional operands and raise [ValueError] when the shapes do
      not agree.
    - A notebook cell is a state transformer on the kernel's global
      name space.  A Python exception aborts the cell at the failing
      statement and keeps the bindings made before it.
    - Every name of the notebook is bound to objects of one type only;
      the name space is split accordingly, one finite map per type. *)

From Stdlib Require Import Reals Lra Lia.
From Stdlib Require PrimFloat FloatOps SpecFloat.
From stdpp Require Import gmap strings list.

Local Open Scope R_scope.

(** ** Complex numbers *)

Record complex := Cplx { re : R; im : R }.

Declare Scope C_scope.
Delimit Scope C_scope with C.
Bind Scope C_scope with complex.

(** Promotion of a float to a complex number. *)
Definition RtoC (x : R) : complex := Cplx x 0.

(** The Python literal [1j]. *)
Definition Ci : complex := Cplx 0 1.

Definition Cadd (z w : complex) : complex :=
  Cplx (re z + re w) (im z + im w).
Definition Csub (z w : complex) : complex :=
  Cplx (re z - re w) (im z - im w).
Definition Copp (z : complex) : complex :=
  Cplx (- re z) (- im z).
Definition Cmul (z w : complex) : complex :=
  Cplx (re z * re w - im z * im w) (re z * im w + im z * re w).
Definition Cconj (z : complex) : complex :=
  Cplx (re z) (- im z).
(** [abs] of a complex number: the Euclidean norm of its two parts. *)
Definition Cabs (z : complex) : R :=
  sqrt (re z * re z + im z * im z).

Notation "z + w" := (Cadd z w) : C_scope.
Notation "z - w" := (Csub z w) : C_scope.
Notation "z * w" := (Cmul z w) : C_scope.
Notation "- z" := (Copp z) : C_scope.

#[export] Instance R_inhabited : Inhabited R := populate 0.
#[export] Instance complex_inhabited : Inhabited complex := populate (RtoC 0).

(** ** Element types of arrays *)

Class Dtype (T : Type) := {
  dadd : T → T → T;
  dsub : T → T → T;
  dmul : T → T → T;
  dneg : T → T
}.

#[export] Instance float64 : Dtype R :=
  {| dadd := Rplus; dsub := Rminus; dmul := Rmult; dneg := Ropp |}.
#[export] Instance complex128 : Dtype complex :=
  {| dadd := Cadd; dsub := Csub; dmul := Cmul; dneg := Copp |}.

(** ** Exceptions *)

Inductive exn :=
  | NameError (name : string)
  | IndexError
  | ValueError.

Inductive outcome (A : Type) :=
  | Ok (a : A)
  | Raise (ex : exn).
Arguments Ok {A} a.
Arguments Raise {A} ex.

#[export] Instance outcome_ret : MRet outcome := @Ok.
#[export] Instance outcome_bind : MBind outcome := λ A B f m,
  match m with Ok a => f a | Raise ex => Raise ex end.
#[export] Instance outcome_fmap : FMap outcome := λ A B f m,
  match m with Ok a => Ok (f a) | Raise ex => Raise ex end.

(** ** numpy arrays *)

Record vec3 (T : Type) := Vec3 { vx : T; vy : T; vz : T }.
Arguments Vec3 {T} vx vy vz.
Arguments vx {T} v.
Arguments vy {T} v.
Arguments vz {T} v.

#[export] Instance vec3_inhabited `{Inhabited T} : Inhabited (vec3 T) :=
  populate (Vec3 inhabitant inhabitant inhabitant).

Module np.

(** Broadcasting of two one-dimensional operands: equal lengths
    combine elementwise, a length-one operand is stretched, any other
    pair of shapes is rejected. *)
Definition broadcast {A B D} (f : A → B → D)
    (x : list A) (y : list B) : outcome (list D) :=
  if decide (length x = length y) then Ok (zip_with f x y)
  else match x, y with
       | [a], _ => Ok (f a <$> y)
       | _, [b] => Ok ((λ a, f a b) <$> x)
       | _, _ => Raise ValueError
       end.

(** A binary operator evaluates its left operand, then its right
    operand, then combines them. *)
Definition binop {A B D} (f : A → B → D)
    (x : outcome (list A)) (y : outcome (list B)) : outcome (list D) :=
  a ← x; b ← y; broadcast f a b.

Definition unop {A B} (f : A → B) (x : outcome (list A)) : outcome (list B) :=
  fmap (M := list) f <$> x.

Definition add `{Dtype T} := binop (dadd (T := T)).
Definition subtract `{Dtype T} := binop (dsub (T := T)).
Definition multiply `{Dtype T} := binop (dmul (T := T)).
Definition negative `{Dtype T} := unop (dneg (T := T)).

(** [s * x] with a Python scalar [s]: a scalar broadcasts against
    every shape. *)
Definition scale `{Dtype T} (s : outcome T) (x : outcome (list T))
    : outcome (list T) :=
  c ← s; a ← x; Ok (fmap (M := list) (dmul c) a).

(** [x ** n] for a literal exponent [n]. *)
Definition power (x : outcome (list R)) (n : nat) : outcome (list R) :=
  unop (λ v, v ^ n) x.

Definition sin := unop Rtrigo_def.sin.
Definition cos := unop Rtrigo_def.cos.
Definition abs := unop Cabs.
Definition real := unop re.
Definition imag := unop im.
Definition conjugate := unop Cconj.

(** Implicit cast of a float array in a complex operation. *)
Definition as_complex := unop RtoC.

(** [F[j,:]] for an array of shape [(3, N)]. *)
Definition row {T} (j : nat) (F : outcome (list (vec3 T))) : outcome (list T) :=
  match j with
  | 0%nat => unop vx F
  | 1%nat => unop vy F
  | 2%nat => unop vz F
  | _ => _ ← F; Raise IndexError
  end.

(** [np.vstack([r0, r1, r2])] of three one-dimensional arrays, which
    must have the same length. *)
Definition vstack3 {T} (r0 r1 r2 : outcome (list T))
    : outcome (list (vec3 T)) :=
  a ← r0; b ← r1; c ← r2;
  if decide (length a = length b ∧ length b = length c)
  then Ok (zip_with (λ p z, Vec3 p.1 p.2 z) (zip a b) c)
  else Raise ValueError.

(** [np.linspace(start, stop, num)] with the default [endpoint=True]:
    [num] samples [start + i * step] with [step = (stop - start) / (num - 1)],
    the last one being set to [stop]. *)
Definition linspace (start stop : R) (num : nat) : list R :=
  let div := (num - 1)%nat in
  let step := (stop - start) / INR div in
  let y := (λ i, INR i * step + start) <$> seq 0 num in
  if decide (1 < num)%nat then <[div := stop]> y
  else (λ _, start) <$> seq 0 num.

End np.

Declare Scope np_scope.
Delimit Scope np_scope with np.
Notation "x + y" := (np.add x y) : np_scope.
Notation "x - y" := (np.subtract x y) : np_scope.
Notation "x * y" := (np.multiply x y) : np_scope.
Notation "- x" := (np.negative x) : np_scope.
Notation "s ⊛ x" := (np.scale s x) (at level 40, left associativity) : np_scope.
Notation "x ** n" := (np.power x n) (at level 30, right associativity) : np_scope.
Notation "F .[ j ,:]" := (np.row j F) (at level 1, format "F .[ j ,:]") : np_scope.

(** ** Python scalars *)

Module py.

Definition mul `{Dtype T} (x y : outcome T) : outcome T :=
  a ← x; b ← y; Ok (dmul a b).

(** Implicit conversion of a float operand of a complex operation. *)
Definition as_complex (x : outcome R) : outcome complex := RtoC <$> x.

End py.

(** ** The kernel's name space

    The global names of the notebook, grouped by the type of the
    objects they are bound to: floats ([kExt]), float arrays ([theta],
    [S11] .. [S44]), complex arrays ([A11] .. [A22]), float matrices of
    shape [(3, N)] ([points]) and complex matrices of shape [(3, N)]
    ([ffp_z], [ffp_y]). *)

Record env := Env {
  floats : gmap string R;
  farrays : gmap string (list R);
  carrays : gmap string (list complex);
  fmats : gmap string (list (vec3 R));
  cmats : gmap string (list (vec3 complex))
}.

(** Reading a name that is not bound raises [NameError]. *)
Definition load {V} (m : gmap string V) (x : string) : outcome V :=
  match m !! x with
  | Some v => Ok v
  | None => Raise (NameError x)
  end.

Definition bind_farray (x : string) (v : list R) (e : env) : env :=
  {| floats := floats e; farrays := <[x := v]> (farrays e);
     carrays := carrays e; fmats := fmats e; cmats := cmats e |}.
Definition bind_carray (x : string) (v : list complex) (e : env) : env :=
  {| floats := floats e; farrays := farrays e;
     carrays := <[x := v]> (carrays e); fmats := fmats e; cmats := cmats e |}.
Definition bind_fmat (x : string) (v : list (vec3 R)) (e : env) : env :=
  {| floats := floats e; farrays := farrays e;
     carrays := carrays e; fmats := <[x := v]> (fmats e); cmats := cmats e |}.

(** A statement maps the name space to the name space, and either
    completes or raises. *)
Definition stmt : Type := env → outcome unit * env.

(** [x = rhs]: the right-hand side is evaluated first; the name is bound
    only if that evaluation completes. *)
Definition assign {V} (store : string → V → env → env)
    (x : string) (rhs : env → outcome V) : stmt :=
  λ e, match rhs e with
       | Ok v => (Ok (), store x v e)
       | Raise ex => (Raise ex, e)
       end.

(** Two statements in a row: the second runs only if the first
    completes. *)
Definition then_ (s1 s2 : stmt) : stmt :=
  λ e, match s1 e with
       | (Ok _, e1) => s2 e1
       | (Raise ex, e1) => (Raise ex, e1)
       end.

Declare Scope stmt_scope.
Delimit Scope stmt_scope with stmt.
Bind Scope stmt_scope with stmt.
Notation "s1 ;; s2" := (then_ s1 s2)
  (at level 100, s2 at level 200, right associativity) : stmt_scope.

(** ** Cell 14: the angle grid and the directions

    The first line of the cell sets a tolerance of the boundary-element
    library and binds no name that the cells below read; it is left
    out. *)

Module Cell14.

(** [theta = np.linspace(0, 2 * np.pi, 3601)] *)
Definition theta (_ : env) : outcome (list R) :=
  Ok (np.linspace 0 (2 * PI) 3601).

(** [points = np.vstack([np.cos(theta), np.sin(theta), 0. * theta])] *)
Definition points (e : env) : outcome (list (vec3 R)) :=
  let theta := load (farrays e) "theta" in
  np.vstack3 (np.cos theta) (np.sin theta) (Ok 0 ⊛ theta)%np.

Definition run : stmt :=
  assign bind_farray "theta" theta ;;
  assign bind_fmat "points" points.

End Cell14.

(** ** Cell 16: the amplitude scattering matrix *)

Module Cell16.

(** The products of a float array and a complex array cast the float
    operand to complex; the cast is written [↑]. *)

Section rhs.
Variable e : env.
Local Abbreviation kExt := (py.as_complex (load (floats e) "kExt")).
Local Abbreviation theta := (load (farrays e) "theta").
Local Abbreviation ffp_z := (load (cmats e) "ffp_z").
Local Abbreviation ffp_y := (load (cmats e) "ffp_y").
Local Notation "'-1j'" := (Ok (- Ci)%C).
Local Abbreviation sin := np.sin.
Local Abbreviation cos := np.cos.
Local Notation "↑ x" := (np.as_complex x) (at level 20) : np_scope.
Local Open Scope np_scope.

(** [A22 = -1j * kExt * ffp_z[2,:]] *)
Definition A22 : outcome (list complex) :=
  py.mul -1j kExt ⊛ ffp_z.[2,:].

(** [A12 = -1j * kExt * (- np.sin(theta) * ffp_z[0,:] + np.cos(theta) * ffp_z[1,:])] *)
Definition A12 : outcome (list complex) :=
  py.mul -1j kExt ⊛ (↑ (- sin theta) * ffp_z.[0,:] + ↑ (cos theta) * ffp_z.[1,:]).

(** [A11 = -1j * kExt * (- np.sin(theta) * ffp_y[0,:] + np.cos(theta) * ffp_y[1,:])] *)
Definition A11 : outcome (list complex) :=
  py.mul -1j kExt ⊛ (↑ (- sin theta) * ffp_y.[0,:] + ↑ (cos theta) * ffp_y.[1,:]).

(** [A21 = -1j * kExt * ffp_y[2,:]] *)
Definition A21 : outcome (list complex) :=
  py.mul -1j kExt ⊛ ffp_y.[2,:].

End rhs.

Definition run : stmt :=
  assign bind_carray "A22" A22 ;;
  assign bind_carray "A12" A12 ;;
  assign bind_carray "A11" A11 ;;
  assign bind_carray "A21" A21.

End Cell16.

(** ** Cell 17: the phase scattering matrix *)

Module Cell17.
Section rhs.
Variable e : env.
Local Abbreviation A11 := (load (carrays e) "A11").
Local Abbreviation A12 := (load (carrays e) "A12").
Local Abbreviation A21 := (load (carrays e) "A21").
Local Abbreviation A22 := (load (carrays e) "A22").
Local Abbreviation abs := np.abs.
Local Abbreviation conjugate := np.conjugate.
Local Open Scope np_scope.

(** [S11 = 0.5*(abs(A11)**2+abs(A22)**2+abs(A21)**2+abs(A12)**2)] *)
Definition S11 : outcome (list R) :=
  Ok 0.5 ⊛ (abs A11 ** 2 + abs A22 ** 2 + abs A21 ** 2 + abs A12 ** 2).
(** [S12 = 0.5*(abs(A11)**2-abs(A22)**2+abs(A21)**2-abs(A12)**2)] *)
Definition S12 : outcome (list R) :=
  Ok 0.5 ⊛ (abs A11 ** 2 - abs A22 ** 2 + abs A21 ** 2 - abs A12 ** 2).
(** [S13 = np.real(A11*np.conjugate(A12)+A22*np.conjugate(A21))] *)
Definition S13 : outcome (list R) :=
  np.real (A11 * conjugate A12 + A22 * conjugate A21).
(** [S14 = np.imag(A11*np.conjugate(A12)-A22*np.conjugate(A21))] *)
Definition S14 : outcome (list R) :=
  np.imag (A11 * conjugate A12 - A22 * conjugate A21).
(** [S21 = 0.5*(abs(A11)**2-abs(A22)**2-abs(A21)**2+abs(A12)**2)] *)
Definition S21 : outcome (list R) :=
  Ok 0.5 ⊛ (abs A11 ** 2 - abs A22 ** 2 - abs A21 ** 2 + abs A12 ** 2).
(** [S22 = 0.5*(abs(A11)**2+abs(A22)**2-abs(A21)**2-abs(A12)**2)] *)
Definition S22 : outcome (list R) :=
  Ok 0.5 ⊛ (abs A11 ** 2 + abs A22 ** 2 - abs A21 ** 2 - abs A12 ** 2).
(** [S23 = np.real(A11*np.conjugate(A12)-A22*np.conjugate(A21))] *)
Definition S23 : outcome (list R) :=
  np.real (A11 * conjugate A12 - A22 * conjugate A21).
(** [S24 = np.imag(A11*np.conjugate(A12)+A22*np.conjugate(A21))] *)
Definition S24 : outcome (list R) :=
  np.imag (A11 * conjugate A12 + A22 * conjugate A21).
(** [S31 = np.real(A11*np.conjugate(A21)+A22*np.conjugate(A12))] *)
Definition S31 : outcome (list R) :=
  np.real (A11 * conjugate A21 + A22 * conjugate A12).
(** [S32 = np.real(A11*np.conjugate(A21)-A22*np.conjugate(A12))] *)
Definition S32 : outcome (list R) :=
  np.real (A11 * conjugate A21 - A22 * conjugate A12).
(** [S33 = np.real(np.conjugate(A11)*A22+A12*np.conjugate(A21))] *)
Definition S33 : outcome (list R) :=
  np.real (conjugate A11 * A22 + A12 * conjugate A21).
(** [S34 = np.imag(A11*np.conjugate(A22)+A21*np.conjugate(A12))] *)
Definition S34 : outcome (list R) :=
  np.imag (A11 * conjugate A22 + A21 * conjugate A12).
(** [S41 = np.imag(np.conjugate(A11)*A21+np.conjugate(A12)*A22)] *)
Definition S41 : outcome (list R) :=
  np.imag (conjugate A11 * A21 + conjugate A12 * A22).
(** [S42 = np.imag(np.conjugate(A11)*A21-np.conjugate(A12)*A22)] *)
Definition S42 : outcome (list R) :=
  np.imag (conjugate A11 * A21 - conjugate A12 * A22).
(** [S43 = np.imag(A22*np.conjugate(A11)-A12*np.conjugate(A21))] *)
Definition S43 : outcome (list R) :=
  np.imag (A22 * conjugate A11 - A12 * conjugate A21).
(** [S44 = np.real(np.conjugate(A11)*A22-A12*np.conjugate(A21))] *)
Definition S44 : outcome (list R) :=
  np.real (conjugate A11 * A22 - A12 * conjugate A21).

End rhs.

Definition run : stmt :=
  assign bind_farray "S11" S11 ;;
  assign bind_farray "S12" S12 ;;
  assign bind_farray "S13" S13 ;;
  assign bind_farray "S14" S14 ;;
  assign bind_farray "S21" S21 ;;
  assign bind_farray "S22" S22 ;;
  assign bind_farray "S23" S23 ;;
  assign bind_farray "S24" S24 ;;
  assign bind_farray "S31" S31 ;;
  assign bind_farray "S32" S32 ;;
  assign bind_farray "S33" S33 ;;
  assign bind_farray "S34" S34 ;;
  assign bind_farray "S41" S41 ;;
  assign bind_farray "S42" S42 ;;
  assign bind_farray "S43" S43 ;;
  assign bind_farray "S44" S44.

End Cell17.

(** ** Observing the name space *)

(** [entry m x i] is the [i]-th element of the array bound to [x]. *)
Definition entry {V} (m : gmap string (list V)) (x : string) (i : nat)
    : option V :=
  m !! x ≫= (.!! i).

(** [has_shape r n g]: the expression [r] evaluates to an array of
    [n] elements whose [i]-th element is [g i]. *)
Definition has_shape {T} (r : outcome (list T)) (n : nat) (g : nat → T)
    : Prop :=
  ∃ l, r = Ok l ∧ length l = n ∧ ∀ i, (i < n)%nat → l !! i = Some (g i).

(** ** The formulas of the specification

    Pointwise formulas of the amplitude matrix (one angle [θ], the two
    far-field vectors [Fz], [Fy] at that angle) and of the phase matrix
    (the four amplitudes at one angle), written with mathematical
    operations: the product [x ⋅ z] of a real and a complex number, and
    the squared modulus. *)

Module Spec.

Definition Cscale (x : R) (z : complex) : complex :=
  Cplx (x * re z) (x * im z).
Definition Cmod2 (z : complex) : R := re z * re z + im z * im z.

Local Notation "x ⋅ z" := (Cscale x z) (at level 38, right associativity) : C_scope.
Local Notation "| z |²" := (Cmod2 z) (format "| z |²") : R_scope.
Local Notation "z ^*" := (Cconj z) (at level 1, format "z ^*") : C_scope.
Local Abbreviation i := Ci.

Section amplitude.
Variables (k θ : R) (Fz Fy : vec3 complex).
Local Open Scope C_scope.

Definition A22 : complex := - i * k ⋅ vz Fz.
Definition A12 : complex := - i * k ⋅ ((- sin θ)%R ⋅ vx Fz + cos θ ⋅ vy Fz).
Definition A11 : complex := - i * k ⋅ ((- sin θ)%R ⋅ vx Fy + cos θ ⋅ vy Fy).
Definition A21 : complex := - i * k ⋅ vz Fy.
End amplitude.

Section phase.
Variables A11 A12 A21 A22 : complex.

Definition S11 : R := 1 / 2 * (|A11|² + |A22|² + |A21|² + |A12|²).
Definition S12 : R := 1 / 2 * (|A11|² - |A22|² + |A21|² - |A12|²).
Definition S13 : R := re (A11 * A12^* + A22 * A21^*).
Definition S14 : R := im (A11 * A12^* - A22 * A21^*).
Definition S21 : R := 1 / 2 * (|A11|² - |A22|² - |A21|² + |A12|²).
Definition S22 : R := 1 / 2 * (|A11|² + |A22|² - |A21|² - |A12|²).
Definition S23 : R := re (A11 * A12^* - A22 * A21^*).
Definition S24 : R := im (A11 * A12^* + A22 * A21^*).
Definition S31 : R := re (A11 * A21^* + A22 * A12^*).
Definition S32 : R := re (A11 * A21^* - A22 * A12^*).
Definition S33 : R := re (A11^* * A22 + A12 * A21^*).
Definition S34 : R := im (A11 * A22^* + A21 * A12^*).
Definition S41 : R := im (A11^* * A21 + A12^* * A22).
Definition S42 : R := im (A11^* * A21 - A12^* * A22).
Definition S43 : R := im (A22 * A11^* - A12 * A21^*).
Definition S44 : R := re (A11^* * A22 - A12 * A21^*).

(** The sixteen entries by name, row by row. *)
Definition phase : list (string * R) :=
  [ ("S11", S11); ("S12", S12); ("S13", S13); ("S14", S14);
    ("S21", S21); ("S22", S22); ("S23", S23); ("S24", S24);
    ("S31", S31); ("S32", S32); ("S33", S33); ("S34", S34);
    ("S41", S41); ("S42", S42); ("S43", S43); ("S44", S44) ].
End phase.

End Spec.

(** The names bound by cell 17, row by row. *)
Definition phase_names : list string :=
  [ "S11"; "S12"; "S13"; "S14"; "S21"; "S22"; "S23"; "S24";
    "S31"; "S32"; "S33"; "S34"; "S41"; "S42"; "S43"; "S44" ].

Definition sum_sq (l : list R) : R := foldr (λ s acc, s ^ 2 + acc) 0 l.

(** ** Concrete name spaces *)

Definition empty_env : env := Env ∅ ∅ ∅ ∅ ∅.

(** The round-trip scenario: constant far fields, [kExt = 5], and the
    three cells run in the order of the notebook. *)
Module Scenario.

Definition ffp_z : list (vec3 complex) :=
  replicate 3601 (Vec3 (RtoC 0) (RtoC 0) (RtoC 1)).
Definition ffp_y : list (vec3 complex) :=
  replicate 3601 (Vec3 (RtoC 0) (RtoC 1) (RtoC 0)).

Definition start : env :=
  {| floats := {[ "kExt" := 5 ]}; farrays := ∅; carrays := ∅; fmats := ∅;
     cmats := <[ "ffp_z" := ffp_z ]> {[ "ffp_y" := ffp_y ]} |}.

Definition cells : stmt := Cell14.run ;; Cell16.run ;; Cell17.run.

End Scenario.

(** Small name spaces with two angles. *)
Module Sample.

Definition theta : list R := [0; PI / 2].
Definition ffp_z : list (vec3 complex) :=
  [ Vec3 (Cplx 1 0) (Cplx 0 1) (Cplx 1 1);
    Vec3 (Cplx 2 1) (Cplx 0 0) (Cplx 0 3) ].
Definition ffp_y : list (vec3 complex) :=
  [ Vec3 (Cplx 0 2) (Cplx 1 1) (Cplx 1 0);
    Vec3 (Cplx 1 0) (Cplx 3 0) (Cplx 2 2) ].

(** Before cell 16. *)
Definition fields : env :=
  {| floats := {[ "kExt" := 5 ]}; farrays := {[ "theta" := theta ]};
     carrays := ∅; fmats := ∅;
     cmats := <[ "ffp_z" := ffp_z ]> {[ "ffp_y" := ffp_y ]} |}.

(** The same inputs in a kernel where [A11] is already bound. *)
Definition fields_rerun : env :=
  bind_carray "A11" [Cplx 9 9] fields.

(** The same [kExt], [theta] and [ffp_z], another [ffp_y]. *)
Definition fields_other_y : env :=
  {| floats := {[ "kExt" := 5 ]}; farrays := {[ "theta" := theta ]};
     carrays := ∅; fmats := ∅;
     cmats := <[ "ffp_z" := ffp_z ]> {[ "ffp_y" := ffp_z ]} |}.

(** The same [kExt], [theta] and [ffp_y], another [ffp_z]. *)
Definition fields_other_z : env :=
  {| floats := {[ "kExt" := 5 ]}; farrays := {[ "theta" := theta ]};
     carrays := ∅; fmats := ∅;
     cmats := <[ "ffp_z" := ffp_y ]> {[ "ffp_y" := ffp_y ]} |}.

Definition A11 : list complex := [Cplx 1 2; Cplx 0 1].
Definition A12 : list complex := [Cplx 0 0; Cplx 1 1].
Definition A21 : list complex := [Cplx 3 0; Cplx 0 2].
Definition A22 : list complex := [Cplx 1 1; Cplx 2 0].

(** Before cell 17. *)
Definition amplitudes : env :=
  {| floats := ∅; farrays := ∅;
     carrays := <[ "A11" := A11 ]> (<[ "A12" := A12 ]>
                  (<[ "A21" := A21 ]> {[ "A22" := A22 ]}));
     fmats := ∅; cmats := ∅ |}.

(** Amplitude arrays of lengths 2, 2, 4 and 2. *)
Definition ragged_amplitudes : env :=
  {| floats := ∅; farrays := ∅;
     carrays := <[ "A11" := A11 ]> (<[ "A12" := A12 ]>
                  (<[ "A21" := A21 ++ A22 ]> {[ "A22" := A22 ]}));
     fmats := ∅; cmats := ∅ |}.

(** Two angles and two samples of [ffp_z], a single sample of
    [ffp_y]. *)
Definition short_y : env :=
  {| floats := {[ "kExt" := 5 ]}; farrays := {[ "theta" := theta ]};
     carrays := ∅; fmats := ∅;
     cmats := <[ "ffp_z" := ffp_z ]> {[ "ffp_y" := take 1 ffp_y ]} |}.

(** Two angles, three samples of [ffp_z], two samples of [ffp_y]. *)
Definition long_z : env :=
  {| floats := {[ "kExt" := 5 ]}; farrays := {[ "theta" := theta ]};
     carrays := ∅; fmats := ∅;
     cmats := <[ "ffp_z" := ffp_z ++ take 1 ffp_y ]> {[ "ffp_y" := ffp_y ]} |}.

End Sample.

(** ** Cell 17 in binary64 arithmetic

    The hardware computes in IEEE 754 binary64.  The module embeds the
    sixteen statements of cell 17 once more, at one index, over Rocq's
    primitive binary64 numbers, whose operations round to nearest as
    the hardware's do.  Shapes and exceptions are those of the model
    above and are not repeated. *)

Module Binary64.
Import PrimFloat.

Record complex128 := C128 { real : float; imag : float }.

Declare Scope c128_scope.
Delimit Scope c128_scope with c128.
Bind Scope c128_scope with complex128.

(** numpy's loops for [+], [-], [*] and [np.conjugate] on complex128;
    every product, sum and difference is rounded on its own. *)
Definition add (z w : complex128) : complex128 :=
  C128 (real z + real w) (imag z + imag w).
Definition subtract (z w : complex128) : complex128 :=
  C128 (real z - real w) (imag z - imag w).
Definition multiply (z w : complex128) : complex128 :=
  C128 (real z * real w - imag z * imag w) (real z * imag w + imag z * real w).
Definition conjugate (z : complex128) : complex128 :=
  C128 (real z) (- imag z).

Notation "z + w" := (add z w) : c128_scope.
Notation "z - w" := (subtract z w) : c128_scope.
Notation "z * w" := (multiply z w) : c128_scope.

(** [abs] of a complex number is C's [hypot] of its two parts.  When one
    part is zero the result is the absolute value of the other part,
    exactly; elsewhere the C libraries differ in the last place, and the
    model gives no value. *)
Definition hypot (x y : float) : option float :=
  if (y =? 0)%float then Some (abs x)
  else if (x =? 0)%float then Some (abs y)
  else None.

Definition absolute (z : complex128) : option float :=
  hypot (real z) (imag z).

(** [x ** 2] on a float array is numpy's [square], the product [x * x]. *)
Definition square (x : float) : float := x * x.

Module Cell17.
Section rhs.
Variables A11 A12 A21 A22 : complex128.
Local Notation "'abs' ( z ) '**2'" := (square <$> absolute z)
  (at level 0, format "'abs' ( z ) '**2'").
Local Open Scope float_scope.

(** [S11 = 0.5*(abs(A11)**2+abs(A22)**2+abs(A21)**2+abs(A12)**2)] *)
Definition S11 : option float :=
  a11 ← abs(A11)**2; a22 ← abs(A22)**2; a21 ← abs(A21)**2; a12 ← abs(A12)**2;
  Some (0.5 * (a11 + a22 + a21 + a12)).
(** [S12 = 0.5*(abs(A11)**2-abs(A22)**2+abs(A21)**2-abs(A12)**2)] *)
Definition S12 : option float :=
  a11 ← abs(A11)**2; a22 ← abs(A22)**2; a21 ← abs(A21)**2; a12 ← abs(A12)**2;
  Some (0.5 * (a11 - a22 + a21 - a12)).
(** [S13 = np.real(A11*np.conjugate(A12)+A22*np.conjugate(A21))] *)
Definition S13 : float := real (A11 * conjugate A12 + A22 * conjugate A21).
(** [S14 = np.imag(A11*np.conjugate(A12)-A22*np.conjugate(A21))] *)
Definition S14 : float := imag (A11 * conjugate A12 - A22 * conjugate A21).
(** [S21 = 0.5*(abs(A11)**2-abs(A22)**2-abs(A21)**2+abs(A12)**2)] *)
Definition S21 : option float :=
  a11 ← abs(A11)**2; a22 ← abs(A22)**2; a21 ← abs(A21)**2; a12 ← abs(A12)**2;
  Some (0.5 * (a11 - a22 - a21 + a12)).
(** [S22 = 0.5*(abs(A11)**2+abs(A22)**2-abs(A21)**2-abs(A12)**2)] *)
Definition S22 : option float :=
  a11 ← abs(A11)**2; a22 ← abs(A22)**2; a21 ← abs(A21)**2; a12 ← abs(A12)**2;
  Some (0.5 * (a11 + a22 - a21 - a12)).
(** [S23 = np.real(A11*np.conjugate(A12)-A22*np.conjugate(A21))] *)
Definition S23 : float := real (A11 * conjugate A12 - A22 * conjugate A21).
(** [S24 = np.imag(A11*np.conjugate(A12)+A22*np.conjugate(A21))] *)
Definition S24 : float := imag (A11 * conjugate A12 + A22 * conjugate A21).
(** [S31 = np.real(A11*np.conjugate(A21)+A22*np.conjugate(A12))] *)
Definition S31 : float := real (A11 * conjugate A21 + A22 * conjugate A12).
(** [S32 = np.real(A11*np.conjugate(A21)-A22*np.conjugate(A12))] *)
Definition S32 : float := real (A11 * conjugate A21 - A22 * conjugate A12).
(** [S33 = np.real(np.conjugate(A11)*A22+A12*np.conjugate(A21))] *)
Definition S33 : float := real (conjugate A11 * A22 + A12 * conjugate A21).
(** [S34 = np.imag(A11*np.conjugate(A22)+A21*np.conjugate(A12))] *)
Definition S34 : float := imag (A11 * conjugate A22 + A21 * conjugate A12).
(** [S41 = np.imag(np.conjugate(A11)*A21+np.conjugate(A12)*A22)] *)
Definition S41 : float := imag (conjugate A11 * A21 + conjugate A12 * A22).
(** [S42 = np.imag(np.conjugate(A11)*A21-np.conjugate(A12)*A22)] *)
Definition S42 : float := imag (conjugate A11 * A21 - conjugate A12 * A22).
(** [S43 = np.imag(A22*np.conjugate(A11)-A12*np.conjugate(A21))] *)
Definition S43 : float := imag (A22 * conjugate A11 - A12 * conjugate A21).
(** [S44 = np.real(np.conjugate(A11)*A22-A12*np.conjugate(A21))] *)
Definition S44 : float := real (conjugate A11 * A22 - A12 * conjugate A21).

(** The sixteen entries at the index, row by row. *)
Definition phase : option (list float) :=
  s11 ← S11; s12 ← S12; s21 ← S21; s22 ← S22;
  Some [ s11; s12; S13; S14; s21; s22; S23; S24;
         S31; S32; S33; S34; S41; S42; S43; S44 ].

End rhs.
End Cell17.

(** Every finite binary64 number is an integer multiple of [2^-1074]:
    [units x] is that integer, the exact value of [x] in this unit. *)
Definition units (x : float) : option Z :=
  match FloatOps.Prim2SF x with
  | SpecFloat.S754_zero _ => Some 0%Z
  | SpecFloat.S754_finite s m e =>
      let v := (Z.pos m * 2 ^ (e + 1074))%Z in
      Some (if s then (- v)%Z else v)
  | _ => None
  end.

Definition sum_sq (l : list Z) : Z := foldr (λ u acc, u ^ 2 + acc)%Z 0%Z l.

(** Amplitudes at one angle: [A11 = 0.1], [A22 = 0.3], [A12 = A21 = 0]. *)
Module Sample.
Local Open Scope float_scope.
Definition A11 : complex128 := C128 0.1 0.
Definition A12 : complex128 := C128 0 0.
Definition A21 : complex128 := C128 0 0.
Definition A22 : complex128 := C128 0.3 0.
End Sample.

End Binary64.

(** ** Further cells of the notebooks

    The cells below surround the three cells above: the material
    constants (cell 5), the incident waves and their traces (cell 7),
    the reference quantity of the Mie comparison (last statement of
    cell 18) and the data handed to the plots (cell 19).  The calls into
    the boundary-element library, the Mie solver and the plotting
    library are not part of the model; the names they bind are read from
    the name space. *)

(** Complex exponential, [np.exp] of a complex scalar. *)
Definition Cexp (z : complex) : complex :=
  Cplx (exp (re z) * cos (im z)) (exp (re z) * sin (im z)).

(** Complex division.  Python raises on a zero divisor and numpy yields
    non-finite values there; both are handled where the division is
    used. *)
Definition Cdiv (z w : complex) : complex :=
  let d := re w * re w + im w * im w in
  Cplx ((re z * re w + im z * im w) / d) ((im z * re w - re z * im w) / d).

Notation "z / w" := (Cdiv z w) : C_scope.

Definition vmap {A B} (f : A → B) (v : vec3 A) : vec3 B :=
  Vec3 (f (vx v)) (f (vy v)) (f (vz v)).

Module numpy.

(** [np.cross(a, b, axis=0)] of two arrays of shape [(3,)]. *)
Definition cross (a b : vec3 complex) : vec3 complex :=
  Vec3 (vy a * vz b - vz a * vy b)%C
       (vz a * vx b - vx a * vz b)%C
       (vx a * vy b - vy a * vx b)%C.

(** The slice [x[:n]]: the first [n] elements, or all of them when
    there are fewer. *)
Definition upto {T} (n : nat) (x : outcome (list T)) : outcome (list T) :=
  take n <$> x.

End numpy.

Notation "x .[: n ]" := (numpy.upto n x) (at level 1, format "x .[: n ]") : np_scope.

(** *** Cell 7: the incident waves

    The functions take a point [x] and a normal [n], arrays of shape
    [(3,)]; the trace functions fill [result], whose new contents are
    the value of the model.  [kExt] is a global, read when the function
    runs.  The division by [1j * kExt] is numpy's: for [kExt = 0] it
    yields non-finite values, which are outside the model. *)

Module Cell7.
Section globals.
Variable e : env.
Local Abbreviation kExt := (load (floats e) "kExt").
Local Abbreviation exp := Cexp.
Local Abbreviation j := Ci.
Local Open Scope C_scope.

(** [return np.array([0. * x[0], 0. * x[0], np.exp(1j * kExt * x[0])])] *)
Definition incident_field_z (x : vec3 R) : outcome (vec3 complex) :=
  k ← kExt;
  Ok (Vec3 (RtoC (0 * vx x)) (RtoC (0 * vx x)) (exp (j * RtoC k * RtoC (vx x)))).

(** [return np.array([0. * x[0], np.exp(1j * kExt * x[0]), 0. * x[0]])] *)
Definition incident_field_y (x : vec3 R) : outcome (vec3 complex) :=
  k ← kExt;
  Ok (Vec3 (RtoC (0 * vx x)) (exp (j * RtoC k * RtoC (vx x))) (RtoC (0 * vx x))).

(** [result[:] = np.cross(incident_field_z(x), n, axis=0)] *)
Definition evalIncDirichletTrace_z (x n : vec3 R) (domain_index : Z)
    : outcome (vec3 complex) :=
  E ← incident_field_z x;
  Ok (numpy.cross E (vmap RtoC n)).

(** [result[:] = np.cross(incident_field_y(x), n, axis=0)] *)
Definition evalIncDirichletTrace_y (x n : vec3 R) (domain_index : Z)
    : outcome (vec3 complex) :=
  E ← incident_field_y x;
  Ok (numpy.cross E (vmap RtoC n)).

(** [curl = np.array([x[0] * 0. ,-1j * kExt * np.exp(1j * kExt * x[0]), x[0] * 0.])]
    [result[:] = np.cross(curl / (1j * kExt), n, axis=0)] *)
Definition evalIncNeumannTrace_z (x n : vec3 R) (domain_index : Z)
    : outcome (vec3 complex) :=
  k ← kExt;
  let curl := Vec3 (RtoC (vx x * 0)) (- j * RtoC k * exp (j * RtoC k * RtoC (vx x)))
                   (RtoC (vx x * 0)) in
  Ok (numpy.cross (vmap (λ c, c / (j * RtoC k)) curl) (vmap RtoC n)).

(** [curl = np.array([x[0] * 0., x[0] * 0. ,1j * kExt * np.exp(1j * kExt * x[0])])]
    [result[:] = np.cross(curl / (1j * kExt) , n, axis=0)] *)
Definition evalIncNeumannTrace_y (x n : vec3 R) (domain_index : Z)
    : outcome (vec3 complex) :=
  k ← kExt;
  let curl := Vec3 (RtoC (vx x * 0)) (RtoC (vx x * 0))
                   (j * RtoC k * exp (j * RtoC k * RtoC (vx x))) in
  Ok (numpy.cross (vmap (λ c, c / (j * RtoC k)) curl) (vmap RtoC n)).

End globals.
End Cell7.

(** *** Cell 5: the material constants

    The cell binds two integers and two complex numbers, and its
    division can raise [ZeroDivisionError].  The scalar names live in a
    kernel that holds the name space of the array cells beside them. *)

Inductive pyexn :=
  | Exn (ex : exn)
  | ZeroDivisionError.

Inductive result (A : Type) :=
  | Return (a : A)
  | Throw (ex : pyexn).
Arguments Return {A} a.
Arguments Throw {A} ex.

#[export] Instance result_bind : MBind result := λ A B f m,
  match m with Return a => f a | Throw ex => Throw ex end.

Record kernel := Kernel {
  arrays : env;
  ints : gmap string Z;
  complexes : gmap string complex
}.

Definition read {V} (m : gmap string V) (x : string) : result V :=
  match m !! x with
  | Some v => Return v
  | None => Throw (Exn (NameError x))
  end.

Definition bind_int (x : string) (v : Z) (κ : kernel) : kernel :=
  {| arrays := arrays κ; ints := <[x := v]> (ints κ);
     complexes := complexes κ |}.
Definition bind_complex (x : string) (v : complex) (κ : kernel) : kernel :=
  {| arrays := arrays κ; ints := ints κ;
     complexes := <[x := v]> (complexes κ) |}.

Definition kstmt : Type := kernel → result unit * kernel.

Definition kassign {V} (store : string → V → kernel → kernel)
    (x : string) (rhs : kernel → result V) : kstmt :=
  λ κ, match rhs κ with
       | Return v => (Return (), store x v κ)
       | Throw ex => (Throw ex, κ)
       end.

Definition kthen (s1 s2 : kstmt) : kstmt :=
  λ κ, match s1 κ with
       | (Return _, κ1) => s2 κ1
       | (Throw ex, κ1) => (Throw ex, κ1)
       end.

Declare Scope kstmt_scope.
Delimit Scope kstmt_scope with kstmt.
Bind Scope kstmt_scope with kstmt.
Notation "s1 ;; s2" := (kthen s1 s2)
  (at level 100, s2 at level 200, right associativity) : kstmt_scope.

Module Cell5.

(** Python's [complex / float]: the divisor is converted to a complex
    number; a zero divisor raises. *)
Definition complex_div_float (z : complex) (d : R) : result complex :=
  if Req_dec_T d 0 then Throw ZeroDivisionError
  else Return (z / RtoC d)%C.

(** [muInt = 1] *)
Definition muInt (_ : kernel) : result Z := Return 1%Z.

(** [muExt = 1] *)
Definition muExt (_ : kernel) : result Z := Return 1%Z.

(** [kInt = kExt * ref_ind] *)
Definition kInt (κ : kernel) : result complex :=
  kExt ← read (floats (arrays κ)) "kExt";
  ref_ind ← read (complexes κ) "ref_ind";
  Return (RtoC kExt * ref_ind)%C.

(** [rho = (kInt * muExt) / (kExt * muInt)] *)
Definition rho (κ : kernel) : result complex :=
  kInt ← read (complexes κ) "kInt";
  muExt ← read (ints κ) "muExt";
  kExt ← read (floats (arrays κ)) "kExt";
  muInt ← read (ints κ) "muInt";
  complex_div_float (kInt * RtoC (IZR muExt))%C (kExt * IZR muInt).

Definition run : kstmt :=
  kassign bind_int "muInt" muInt ;;
  kassign bind_int "muExt" muExt ;;
  kassign bind_complex "kInt" kInt ;;
  kassign bind_complex "rho" rho.

End Cell5.

(** *** Cell 18, last statement: the Mie phase function

    [s1] and [s2] are bound by the call of the Mie solver that precedes
    the statement. *)

Module Cell18.

(** [P11Mie = 0.5*(abs(s1)**2+abs(s2)**2)] *)
Definition P11Mie (e : env) : outcome (list R) :=
  let s1 := load (carrays e) "s1" in
  let s2 := load (carrays e) "s2" in
  (Ok 0.5 ⊛ (np.abs s1 ** 2 + np.abs s2 ** 2))%np.

Definition bind_P11Mie : stmt := assign bind_farray "P11Mie" P11Mie.

End Cell18.

(** *** Cell 19: the data of the two plots

    Each call of [semilogy] receives two curves, each an array of
    abscissas and an array of ordinates; the format strings are left
    out. *)

Module Cell19.
Section args.
Variable e : env.
Local Abbreviation theta := (load (farrays e) "theta").
Local Abbreviation s1 := (load (carrays e) "s1").
Local Abbreviation s2 := (load (carrays e) "s2").
Local Abbreviation A11 := (load (carrays e) "A11").
Local Abbreviation A22 := (load (carrays e) "A22").
Local Abbreviation abs := np.abs.
Local Open Scope np_scope.

(** [ax1.semilogy(theta[:1801],abs(s2)**2,'-r',theta[:1801],abs(A11[:1801])**2,'--b')] *)
Definition ax1_semilogy : outcome ((list R * list R) * (list R * list R)) :=
  x1 ← theta.[:1801]; y1 ← abs s2 ** 2;
  x2 ← theta.[:1801]; y2 ← abs A11.[:1801] ** 2;
  Ok ((x1, y1), (x2, y2)).

(** [ax2.semilogy(theta[:1801],abs(s1)**2,'-r',theta[:1801],abs(A22[:1801])**2,'--b')] *)
Definition ax2_semilogy : outcome ((list R * list R) * (list R * list R)) :=
  x1 ← theta.[:1801]; y1 ← abs s1 ** 2;
  x2 ← theta.[:1801]; y2 ← abs A22.[:1801] ** 2;
  Ok ((x1, y1), (x2, y2)).

End args.
End Cell19.

(** ** Vocabulary of the further properties *)

(** Whether numpy combines two one-dimensional arrays of [n] and [m]
    elements: the lengths are equal, or one of them is 1. *)
Definition fits (n m : nat) : bool :=
  bool_decide (n = m ∨ n = 1%nat ∨ m = 1%nat).

(** The length of the combination of two arrays that fit. *)
Definition stretched (n m : nat) : nat :=
  if decide (n = 1%nat) then m else n.

(** A statement that can only rebind the float arrays [names]. *)
Definition only_farrays (names : list string) (s : stmt) : Prop :=
  ∀ e,
    floats (s e).2 = floats e ∧ carrays (s e).2 = carrays e ∧
    fmats (s e).2 = fmats e ∧ cmats (s e).2 = cmats e ∧
    ∀ x, x ∉ names → farrays (s e).2 !! x = farrays e !! x.

(** Further sample name spaces. *)
Module Sample2.

(** Only the z-polarized far field is bound. *)
Definition fields_z_only : env :=
  {| floats := {[ "kExt" := 5 ]}; farrays := {[ "theta" := Sample.theta ]};
     carrays := ∅; fmats := ∅;
     cmats := {[ "ffp_z" := Sample.ffp_z ]} |}.

(** Amplitudes of a sphere: [A12] and [A21] vanish. *)
Definition zeros : list complex := [Cplx 0 0; Cplx 0 0].
Definition sphere : env :=
  {| floats := ∅; farrays := ∅;
     carrays := <[ "A11" := Sample.A11 ]> (<[ "A12" := zeros ]>
                  (<[ "A21" := zeros ]> {[ "A22" := Sample.A22 ]}));
     fmats := ∅; cmats := ∅ |}.

(** [A11] of two elements and [A22] of four; [A21] and [A12] are not
    bound. *)
Definition two_amplitudes : env :=
  {| floats := ∅; farrays := ∅;
     carrays := <[ "A11" := Sample.A11 ]>
                  {[ "A22" := Sample.A21 ++ Sample.A22 ]};
     fmats := ∅; cmats := ∅ |}.

(** The sphere amplitudes at two angles, and Mie amplitudes of the same
    moduli at the first angle only. *)
Definition sphere_mie : env :=
  {| floats := ∅; farrays := ∅;
     carrays := <[ "s1" := [Cplx 1 (-1)] ]> (<[ "s2" := [Cplx 2 1] ]>
                  (carrays sphere));
     fmats := ∅; cmats := ∅ |}.

(** The angles of cell 14, Mie amplitudes at 1801 angles and amplitude
    arrays at 3601 angles. *)
Definition plotted : env :=
  {| floats := ∅;
     farrays := {[ "theta" := np.linspace 0 (2 * PI) 3601 ]};
     carrays := <[ "s1" := replicate 1801 (Cplx 1 0) ]>
                  (<[ "s2" := replicate 1801 (Cplx 0 1) ]>
                  (<[ "A11" := replicate 3601 (Cplx 1 1) ]>
                  {[ "A22" := replicate 3601 (Cplx 2 0) ]}));
     fmats := ∅; cmats := ∅ |}.

(** Kernels before cell 5. *)
Definition constants : kernel :=
  {| arrays := Sample.fields; ints := ∅;
     complexes := {[ "ref_ind" := Cplx 1.311 2.289e-9 ]} |}.
Definition constants_k0 : kernel :=
  {| arrays := {| floats := {[ "kExt" := 0 ]}; farrays := ∅; carrays := ∅;
                  fmats := ∅; cmats := ∅ |};
     ints := ∅;
     complexes := {[ "ref_ind" := Cplx 1.311 2.289e-9 ]} |}.

End Sample2.

(** * Properties *)

(** ** Arithmetic of complex numbers *)

Lemma complex_eq (z w : complex) : re z = re w → im z = im w → z = w.
Proof. destruct z, w; simpl; intros -> ->; reflexivity. Qed.

Lemma Cabs_pow2 (z : complex) : Cabs z ^ 2 = Spec.Cmod2 z.
Proof.
  unfold Cabs, Spec.Cmod2.
  rewrite <- Rsqr_pow2. apply Rsqr_sqrt. nra.
Qed.

Lemma Cmod2_nonneg (z : complex) : 0 <= Spec.Cmod2 z.
Proof. unfold Spec.Cmod2. nra. Qed.

(** ** Evaluation of array expressions *)

Section shapes.
Context {A B D : Type}.

Lemma broadcast_same (f : A → B → D) (x : list A) (y : list B) :
  length x = length y → np.broadcast f x y = Ok (zip_with f x y).
Proof. intros E. unfold np.broadcast. rewrite decide_True; done. Qed.

Lemma has_shape_list `{Inhabited A} (l : list A) :
  has_shape (Ok l) (length l) (λ i, l !!! i).
Proof.
  exists l. repeat split.
  intros i Hi. destruct (lookup_lt_is_Some_2 l i Hi) as [a Ha].
  rewrite Ha. f_equal. symmetry. by apply list_lookup_total_correct.
Qed.

Lemma has_shape_load `{Inhabited A} (m : gmap string (list A)) x l n :
  m !! x = Some l → length l = n →
  has_shape (load m x) n (λ i, l !!! i).
Proof.
  intros E <-. unfold load. rewrite E. apply has_shape_list.
Qed.

Lemma has_shape_unop (f : A → B) r n g :
  has_shape r n g → has_shape (np.unop f r) n (λ i, f (g i)).
Proof.
  intros (l & -> & Hn & Hl). exists (f <$> l). repeat split.
  - by rewrite length_fmap.
  - intros i Hi. by rewrite list_lookup_fmap, (Hl i Hi).
Qed.

Lemma has_shape_binop (f : A → B → D) r1 r2 n g1 g2 :
  has_shape r1 n g1 → has_shape r2 n g2 →
  has_shape (np.binop f r1 r2) n (λ i, f (g1 i) (g2 i)).
Proof.
  intros (l1 & -> & Hn1 & Hl1) (l2 & -> & Hn2 & Hl2).
  exists (zip_with f l1 l2). repeat split.
  - simpl. apply broadcast_same. congruence.
  - rewrite length_zip_with; lia.
  - intros i Hi. by rewrite lookup_zip_with, (Hl1 i Hi), (Hl2 i Hi).
Qed.

Lemma has_shape_ext (r : outcome (list A)) n g h :
  has_shape r n g → (∀ i, (i < n)%nat → g i = h i) → has_shape r n h.
Proof.
  intros (l & -> & Hn & Hl) E. exists l. repeat split; [done|].
  intros i Hi. rewrite <- E by done. by apply Hl.
Qed.


End shapes.

Lemma has_shape_scale `{Dtype T} (s : outcome T) c r n g :
  s = Ok c → has_shape r n g →
  has_shape (np.scale s r) n (λ i, dmul c (g i)).
Proof.
  intros -> (l & -> & Hn & Hl). exists (dmul c <$> l). repeat split.
  - by rewrite length_fmap.
  - intros i Hi. by rewrite list_lookup_fmap, (Hl i Hi).
Qed.

Lemma has_shape_row {T} (j : nat) (F : outcome (list (vec3 T))) n g :
  (j < 3)%nat → has_shape F n g →
  has_shape (np.row j F) n
    (λ i, match j with 0%nat => vx (g i) | 1%nat => vy (g i) | _ => vz (g i) end).
Proof.
  intros Hj HF. destruct j as [|[|[|j]]]; [..|lia];
    by apply has_shape_unop.
Qed.

(** ** Execution of statements *)

Lemma assign_Ok {V} (store : string → V → env → env) x rhs e v :
  rhs e = Ok v → assign store x rhs e = (Ok (), store x v e).
Proof. intros E. unfold assign. by rewrite E. Qed.

Lemma assign_Raise {V} (store : string → V → env → env) x rhs e ex :
  rhs e = Raise ex → assign store x rhs e = (Raise ex, e).
Proof. intros E. unfold assign. by rewrite E. Qed.

Lemma then_Ok (s1 s2 : stmt) e e1 :
  s1 e = (Ok (), e1) → (s1 ;; s2)%stmt e = s2 e1.
Proof. intros E. unfold then_. by rewrite E. Qed.

Lemma then_Raise (s1 s2 : stmt) e e1 ex :
  s1 e = (Raise ex, e1) → (s1 ;; s2)%stmt e = (Raise ex, e1).
Proof. intros E. unfold then_. by rewrite E. Qed.

(** ** Bindings *)

Lemma lookup_bind_farray_ne x y v e :
  x ≠ y → farrays (bind_farray x v e) !! y = farrays e !! y.
Proof. intros Hxy. simpl. by rewrite lookup_insert_ne. Qed.

Lemma lookup_bind_carray_eq x v e :
  carrays (bind_carray x v e) !! x = Some v.
Proof. simpl. by rewrite lookup_insert_eq. Qed.

Lemma lookup_bind_carray_ne x y v e :
  x ≠ y → carrays (bind_carray x v e) !! y = carrays e !! y.
Proof. intros Hxy. simpl. by rewrite lookup_insert_ne. Qed.

Lemma entry_bind_farray_eq x v e i :
  entry (farrays (bind_farray x v e)) x i = v !! i.
Proof. unfold entry; simpl. by rewrite lookup_insert_eq. Qed.

Lemma entry_bind_farray_ne x y v e i :
  x ≠ y → entry (farrays (bind_farray x v e)) y i = entry (farrays e) y i.
Proof. intros Hxy. unfold entry; simpl. by rewrite lookup_insert_ne. Qed.

Lemma entry_bind_carray_eq x v e i :
  entry (carrays (bind_carray x v e)) x i = v !! i.
Proof. unfold entry; simpl. by rewrite lookup_insert_eq. Qed.

Lemma entry_bind_carray_ne x y v e i :
  x ≠ y → entry (carrays (bind_carray x v e)) y i = entry (carrays e) y i.
Proof. intros Hxy. unfold entry; simpl. by rewrite lookup_insert_ne. Qed.

Lemma has_shape_lookup {A} (l : list A) n g i :
  has_shape (Ok l) n g → (i < n)%nat → l !! i = Some (g i).
Proof. intros (l' & [= <-] & _ & Hl) Hi. by apply Hl. Qed.

Lemma has_shape_length {A} (l : list A) n g :
  has_shape (Ok l) n g → length l = n.
Proof. by intros (l' & [= <-] & Hn & _). Qed.

Lemma load_Some {V} (m : gmap string V) x v : m !! x = Some v → load m x = Ok v.
Proof. intros E. unfold load. by rewrite E. Qed.

(** Expressions are evaluated structurally: each operator of the
    expression contributes one step. *)
Ltac shape_step :=
  first
    [ eassumption
    | eapply has_shape_load; [eassumption | first [eassumption | reflexivity]]
    | apply has_shape_binop
    | apply has_shape_unop
    | eapply has_shape_row; [lia |]
    | eapply has_shape_scale; [reflexivity |]
    | eapply has_shape_scale; [erewrite load_Some by eassumption; reflexivity |] ].
Ltac shape := repeat shape_step.

(** ** Cell 16 computes the amplitude matrix *)

Section Cell16_facts.
Context (e : env) (k : R) (n : nat) (th : list R) (Fz Fy : list (vec3 complex)).
Hypothesis Hk : floats e !! "kExt" = Some k.
Hypothesis Hth : farrays e !! "theta" = Some th.
Hypothesis Hz : cmats e !! "ffp_z" = Some Fz.
Hypothesis Hy : cmats e !! "ffp_y" = Some Fy.
Hypothesis Nth : length th = n.

Lemma A22_shape :
  length Fz = n →
  has_shape (Cell16.A22 e) n (λ i, Spec.A22 k (Fz !!! i)).
Proof.
  intros Nz. unfold Cell16.A22. eapply has_shape_ext; [shape|].
  intros i _. apply complex_eq; simpl; ring.
Qed.

Lemma A12_shape :
  length Fz = n →
  has_shape (Cell16.A12 e) n (λ i, Spec.A12 k (th !!! i) (Fz !!! i)).
Proof.
  intros Nz. unfold Cell16.A12. eapply has_shape_ext; [shape|].
  intros i _. apply complex_eq; simpl; ring.
Qed.

Lemma A11_shape :
  length Fy = n →
  has_shape (Cell16.A11 e) n (λ i, Spec.A11 k (th !!! i) (Fy !!! i)).
Proof.
  intros Ny. unfold Cell16.A11. eapply has_shape_ext; [shape|].
  intros i _. apply complex_eq; simpl; ring.
Qed.

Lemma A21_shape :
  length Fy = n →
  has_shape (Cell16.A21 e) n (λ i, Spec.A21 k (Fy !!! i)).
Proof.
  intros Ny. unfold Cell16.A21. eapply has_shape_ext; [shape|].
  intros i _. apply complex_eq; simpl; ring.
Qed.

End Cell16_facts.

(** The name space after a complete run of cell 16. *)
Lemma Cell16_run_Ok e k n th Fz Fy :
  floats e !! "kExt" = Some k →
  farrays e !! "theta" = Some th →
  cmats e !! "ffp_z" = Some Fz →
  cmats e !! "ffp_y" = Some Fy →
  length th = n → length Fz = n → length Fy = n →
  ∃ a22 a12 a11 a21,
    Cell16.run e =
      (Ok (), bind_carray "A21" a21 (bind_carray "A11" a11
                (bind_carray "A12" a12 (bind_carray "A22" a22 e)))) ∧
    has_shape (Ok a22) n (λ i, Spec.A22 k (Fz !!! i)) ∧
    has_shape (Ok a12) n (λ i, Spec.A12 k (th !!! i) (Fz !!! i)) ∧
    has_shape (Ok a11) n (λ i, Spec.A11 k (th !!! i) (Fy !!! i)) ∧
    has_shape (Ok a21) n (λ i, Spec.A21 k (Fy !!! i)).
Proof.
  intros Hk Hth Hz Hy Nth Nz Ny.
  destruct (A22_shape e k n Fz Hk Hz Nz) as (a22 & E22 & S22).
  set (e1 := bind_carray "A22" a22 e).
  destruct (A12_shape e1 k n th Fz Hk Hth Hz Nth Nz) as (a12 & E12 & S12).
  set (e2 := bind_carray "A12" a12 e1).
  destruct (A11_shape e2 k n th Fy Hk Hth Hy Nth Ny) as (a11 & E11 & S11).
  set (e3 := bind_carray "A11" a11 e2).
  destruct (A21_shape e3 k n Fy Hk Hy Ny) as (a21 & E21 & S21).
  exists a22, a12, a11, a21. split; [|by repeat split; eexists].
  unfold Cell16.run.
  rewrite (then_Ok _ _ e e1) by by apply assign_Ok.
  rewrite (then_Ok _ _ e1 e2) by by apply assign_Ok.
  rewrite (then_Ok _ _ e2 e3) by by apply assign_Ok.
  by apply assign_Ok.
Qed.

(** C1.  When [theta], [ffp_z] and [ffp_y] hold [N] samples each, cell 16
    completes, and at every index [i] the four arrays it binds hold
    [A22[i] = -i k Fz[i].z],
    [A12[i] = -i k (-sin θ_i Fz[i].x + cos θ_i Fz[i].y)],
    [A11[i] = -i k (-sin θ_i Fy[i].x + cos θ_i Fy[i].y)] and
    [A21[i] = -i k Fy[i].z]. *)
Theorem amplitude_entries e k th Fz Fy :
  floats e !! "kExt" = Some k →
  farrays e !! "theta" = Some th →
  cmats e !! "ffp_z" = Some Fz →
  cmats e !! "ffp_y" = Some Fy →
  length Fz = length th → length Fy = length th →
  ∃ e', Cell16.run e = (Ok (), e') ∧
    ∀ i θ fz fy,
      th !! i = Some θ → Fz !! i = Some fz → Fy !! i = Some fy →
      entry (carrays e') "A22" i = Some (Spec.A22 k fz) ∧
      entry (carrays e') "A12" i = Some (Spec.A12 k θ fz) ∧
      entry (carrays e') "A11" i = Some (Spec.A11 k θ fy) ∧
      entry (carrays e') "A21" i = Some (Spec.A21 k fy).
Proof.
  intros Hk Hth Hz Hy Nz Ny.
  destruct (Cell16_run_Ok e k (length th) th Fz Fy)
    as (a22 & a12 & a11 & a21 & Hrun & S22 & S12 & S11 & S21); try done.
  eexists. split; [exact Hrun|].
  intros i θ fz fy Hθ Hfz Hfy.
  assert (i < length th)%nat as Hi by by eapply lookup_lt_Some.
  rewrite <- (list_lookup_total_correct _ _ _ Hθ),
          <- (list_lookup_total_correct _ _ _ Hfz),
          <- (list_lookup_total_correct _ _ _ Hfy).
  repeat split;
    rewrite ?entry_bind_carray_ne by discriminate;
    rewrite entry_bind_carray_eq;
    match goal with
    | S : has_shape (Ok ?v) _ _ |- ?v !! _ = _ =>
        by apply (has_shape_lookup _ _ _ _ S)
    end.
Qed.

(** ** Cell 17 computes the phase matrix *)

Ltac pointwise :=
  intros ? _; cbv beta; rewrite ?Cabs_pow2;
  first [ reflexivity
        | unfold Spec.S11, Spec.S12, Spec.S21, Spec.S22; simpl; lra ].

Section Cell17_facts.
Context (e : env) (n : nat) (a11 a12 a21 a22 : list complex).
Hypothesis H11 : carrays e !! "A11" = Some a11.
Hypothesis H12 : carrays e !! "A12" = Some a12.
Hypothesis H21 : carrays e !! "A21" = Some a21.
Hypothesis H22 : carrays e !! "A22" = Some a22.
Hypothesis N11 : length a11 = n.
Hypothesis N12 : length a12 = n.
Hypothesis N21 : length a21 = n.
Hypothesis N22 : length a22 = n.

Local Notation "f @ i" := (f (a11 !!! i) (a12 !!! i) (a21 !!! i) (a22 !!! i))
    (at level 10, i at level 9, only parsing).

Lemma S11_shape : has_shape (Cell17.S11 e) n (λ i, Spec.S11 @ i).
Proof. unfold Cell17.S11. eapply has_shape_ext; [shape | pointwise]. Qed.

Lemma S12_shape : has_shape (Cell17.S12 e) n (λ i, Spec.S12 @ i).
Proof. unfold Cell17.S12. eapply has_shape_ext; [shape | pointwise]. Qed.

Lemma S13_shape : has_shape (Cell17.S13 e) n (λ i, Spec.S13 @ i).
Proof. unfold Cell17.S13. eapply has_shape_ext; [shape | pointwise]. Qed.

Lemma S14_shape : has_shape (Cell17.S14 e) n (λ i, Spec.S14 @ i).
Proof. unfold Cell17.S14. eapply has_shape_ext; [shape | pointwise]. Qed.

Lemma S21_shape : has_shape (Cell17.S21 e) n (λ i, Spec.S21 @ i).
Proof. unfold Cell17.S21. eapply has_shape_ext; [shape | pointwise]. Qed.

Lemma S22_shape : has_shape (Cell17.S22 e) n (λ i, Spec.S22 @ i).
Proof. unfold Cell17.S22. eapply has_shape_ext; [shape | pointwise]. Qed.

Lemma S23_shape : has_shape (Cell17.S23 e) n (λ i, Spec.S23 @ i).
Proof. unfold Cell17.S23. eapply has_shape_ext; [shape | pointwise]. Qed.

Lemma S24_shape : has_shape (Cell17.S24 e) n (λ i, Spec.S24 @ i).
Proof. unfold Cell17.S24. eapply has_shape_ext; [shape | pointwise]. Qed.

Lemma S31_shape : has_shape (Cell17.S31 e) n (λ i, Spec.S31 @ i).
Proof. unfold Cell17.S31. eapply has_shape_ext; [shape | pointwise]. Qed.

Lemma S32_shape : has_shape (Cell17.S32 e) n (λ i, Spec.S32 @ i).
Proof. unfold Cell17.S32. eapply has_shape_ext; [shape | pointwise]. Qed.

Lemma S33_shape : has_shape (Cell17.S33 e) n (λ i, Spec.S33 @ i).
Proof. unfold Cell17.S33. eapply has_shape_ext; [shape | pointwise]. Qed.

Lemma S34_shape : has_shape (Cell17.S34 e) n (λ i, Spec.S34 @ i).
Proof. unfold Cell17.S34. eapply has_shape_ext; [shape | pointwise]. Qed.

Lemma S41_shape : has_shape (Cell17.S41 e) n (λ i, Spec.S41 @ i).
Proof. unfold Cell17.S41. eapply has_shape_ext; [shape | pointwise]. Qed.

Lemma S42_shape : has_shape (Cell17.S42 e) n (λ i, Spec.S42 @ i).
Proof. unfold Cell17.S42. eapply has_shape_ext; [shape | pointwise]. Qed.

Lemma S43_shape : has_shape (Cell17.S43 e) n (λ i, Spec.S43 @ i).
Proof. unfold Cell17.S43. eapply has_shape_ext; [shape | pointwise]. Qed.

Lemma S44_shape : has_shape (Cell17.S44 e) n (λ i, Spec.S44 @ i).
Proof. unfold Cell17.S44. eapply has_shape_ext; [shape | pointwise]. Qed.

End Cell17_facts.

(** One assignment of cell 17, run symbolically in the equation [Hr]
    that describes the run so far. *)
Ltac phase_step lem Hr :=
  let v := fresh "v" in
  let E := fresh "E" in
  let S := fresh "S" in
  let L := fresh "L" in
  lazymatch type of Hr with
  | _ = then_ _ _ ?e =>
      edestruct (lem e) as (v & E & L & S); [eassumption..|];
      rewrite (then_Ok _ _ e _ (assign_Ok bind_farray _ _ e v E)) in Hr
  | _ = assign _ _ _ ?e =>
      edestruct (lem e) as (v & E & L & S); [eassumption..|];
      rewrite (assign_Ok bind_farray _ _ e v E) in Hr
  end.

(** The name space after a complete run of cell 17: only float arrays
    are bound, and the sixteen arrays hold the sixteen formulas at every
    index. *)
Lemma Cell17_run_Ok e n a11 a12 a21 a22 :
  carrays e !! "A11" = Some a11 → carrays e !! "A12" = Some a12 →
  carrays e !! "A21" = Some a21 → carrays e !! "A22" = Some a22 →
  length a11 = n → length a12 = n → length a21 = n → length a22 = n →
  ∃ e', Cell17.run e = (Ok (), e') ∧
    carrays e' = carrays e ∧
    (∀ x, x ∉ phase_names → farrays e' !! x = farrays e !! x) ∧
    ∀ i, (i < n)%nat →
      Forall (λ p, entry (farrays e') p.1 i = Some p.2)
        (Spec.phase (a11 !!! i) (a12 !!! i) (a21 !!! i) (a22 !!! i)).
Proof.
  intros H11 H12 H21 H22 N11 N12 N21 N22.
  remember (Cell17.run e) as r eqn:Hr. unfold Cell17.run in Hr.
  phase_step S11_shape Hr. phase_step S12_shape Hr.
  phase_step S13_shape Hr. phase_step S14_shape Hr.
  phase_step S21_shape Hr. phase_step S22_shape Hr.
  phase_step S23_shape Hr. phase_step S24_shape Hr.
  phase_step S31_shape Hr. phase_step S32_shape Hr.
  phase_step S33_shape Hr. phase_step S34_shape Hr.
  phase_step S41_shape Hr. phase_step S42_shape Hr.
  phase_step S43_shape Hr. phase_step S44_shape Hr.
  subst r. eexists. split; [reflexivity|]. split; [reflexivity|]. split.
  { intros x Hx. unfold phase_names in Hx.
    repeat (apply not_elem_of_cons in Hx as [? Hx]).
    by rewrite !lookup_bind_farray_ne by done. }
  intros i Hi. unfold Spec.phase.
  repeat apply Forall_cons_2; try apply Forall_nil_2; cbn [fst snd];
    rewrite ?entry_bind_farray_ne by discriminate;
    rewrite entry_bind_farray_eq; auto.
Qed.

Lemma phase_names_spec z11 z12 z21 z22 :
  (Spec.phase z11 z12 z21 z22).*1 = phase_names.
Proof. reflexivity. Qed.

(** Reading one entry off the table of sixteen. *)
Lemma phase_lookup (m : gmap string (list R)) i z11 z12 z21 z22 x v :
  Forall (λ p, entry m p.1 i = Some p.2) (Spec.phase z11 z12 z21 z22) →
  (x, v) ∈ Spec.phase z11 z12 z21 z22 →
  entry m x i = Some v.
Proof. intros HF Hin. by apply (proj1 (Forall_forall _ _) HF (x, v)). Qed.

Ltac in_phase :=
  unfold Spec.phase;
  repeat first [ apply list_elem_of_here | apply list_elem_of_further ].


(** ** Algebra of the phase matrix at one angle *)

Section mueller.
Variables z11 z12 z21 z22 : complex.

Lemma S11_nonneg : 0 <= Spec.S11 z11 z12 z21 z22.
Proof.
  unfold Spec.S11.
  pose proof (Cmod2_nonneg z11). pose proof (Cmod2_nonneg z12).
  pose proof (Cmod2_nonneg z21). pose proof (Cmod2_nonneg z22). lra.
Qed.

Lemma S12_bounded : Rabs (Spec.S12 z11 z12 z21 z22) <= Spec.S11 z11 z12 z21 z22.
Proof.
  unfold Spec.S11, Spec.S12. apply Rabs_le.
  pose proof (Cmod2_nonneg z11). pose proof (Cmod2_nonneg z12).
  pose proof (Cmod2_nonneg z21). pose proof (Cmod2_nonneg z22). lra.
Qed.

Lemma S21_bounded : Rabs (Spec.S21 z11 z12 z21 z22) <= Spec.S11 z11 z12 z21 z22.
Proof.
  unfold Spec.S11, Spec.S21. apply Rabs_le.
  pose proof (Cmod2_nonneg z11). pose proof (Cmod2_nonneg z12).
  pose proof (Cmod2_nonneg z21). pose proof (Cmod2_nonneg z22). lra.
Qed.

Lemma sum_sq_phase :
  sum_sq (Spec.phase z11 z12 z21 z22).*2 = 4 * Spec.S11 z11 z12 z21 z22 ^ 2.
Proof.
  destruct z11 as [a b], z12 as [c d], z21 as [f g], z22 as [p q].
  unfold sum_sq, Spec.phase; simpl.
  unfold Spec.S11, Spec.S12, Spec.S13, Spec.S14, Spec.S21, Spec.S22,
    Spec.S23, Spec.S24, Spec.S31, Spec.S32, Spec.S33, Spec.S34,
    Spec.S41, Spec.S42, Spec.S43, Spec.S44, Spec.Cmod2; simpl.
  field.
Qed.

End mueller.

(** ** Properties of the arrays bound by cell 17 *)

(** C6.  After cell 17, every element of [S11] is non-negative. *)
Theorem S11_positive e a11 a12 a21 a22 :
  carrays e !! "A11" = Some a11 → carrays e !! "A12" = Some a12 →
  carrays e !! "A21" = Some a21 → carrays e !! "A22" = Some a22 →
  length a12 = length a11 → length a21 = length a11 →
  length a22 = length a11 →
  ∃ e', Cell17.run e = (Ok (), e') ∧
    ∀ i, (i < length a11)%nat →
      ∃ s11, entry (farrays e') "S11" i = Some s11 ∧ 0 <= s11.
Proof.
  intros H11 H12 H21 H22 N12 N21 N22.
  destruct (Cell17_run_Ok e (length a11) a11 a12 a21 a22)
    as (e' & Hrun & _ & _ & HS); try done.
  exists e'. split; [done|]. intros i Hi.
  eexists. split.
  - eapply phase_lookup; [by apply HS | in_phase].
  - apply S11_nonneg.
Qed.

(** C5.  After cell 17, at every index, [S11] bounds the absolute values
    of [S12] and of [S21]. *)
Theorem S11_bounds_S12_S21 e a11 a12 a21 a22 :
  carrays e !! "A11" = Some a11 → carrays e !! "A12" = Some a12 →
  carrays e !! "A21" = Some a21 → carrays e !! "A22" = Some a22 →
  length a12 = length a11 → length a21 = length a11 →
  length a22 = length a11 →
  ∃ e', Cell17.run e = (Ok (), e') ∧
    ∀ i, (i < length a11)%nat →
      ∃ s11 s12 s21,
        entry (farrays e') "S11" i = Some s11 ∧
        entry (farrays e') "S12" i = Some s12 ∧
        entry (farrays e') "S21" i = Some s21 ∧
        Rabs s12 <= s11 ∧ Rabs s21 <= s11.
Proof.
  intros H11 H12 H21 H22 N12 N21 N22.
  destruct (Cell17_run_Ok e (length a11) a11 a12 a21 a22)
    as (e' & Hrun & _ & _ & HS); try done.
  exists e'. split; [done|]. intros i Hi.
  do 3 eexists. repeat split.
  - eapply phase_lookup; [by apply HS | in_phase].
  - eapply phase_lookup; [by apply HS | in_phase].
  - eapply phase_lookup; [by apply HS | in_phase].
  - apply S12_bounded.
  - apply S21_bounded.
Qed.

(** C9, in exact arithmetic.  After cell 17, at every index, the
    squares of the sixteen entries add up to four times the square of
    [S11]. *)
Theorem sum_of_squares e a11 a12 a21 a22 :
  carrays e !! "A11" = Some a11 → carrays e !! "A12" = Some a12 →
  carrays e !! "A21" = Some a21 → carrays e !! "A22" = Some a22 →
  length a12 = length a11 → length a21 = length a11 →
  length a22 = length a11 →
  ∃ e', Cell17.run e = (Ok (), e') ∧
    ∀ i, (i < length a11)%nat →
      ∃ (S : list R) (s11 : R),
        Forall2 (λ x s, entry (farrays e') x i = Some s) phase_names S ∧
        entry (farrays e') "S11" i = Some s11 ∧
        sum_sq S = 4 * s11 ^ 2.
Proof.
  intros H11 H12 H21 H22 N12 N21 N22.
  destruct (Cell17_run_Ok e (length a11) a11 a12 a21 a22)
    as (e' & Hrun & _ & _ & HS); try done.
  exists e'. split; [done|]. intros i Hi.
  specialize (HS i Hi).
  exists (Spec.phase (a11 !!! i) (a12 !!! i) (a21 !!! i) (a22 !!! i)).*2.
  eexists. repeat split.
  - rewrite <- (phase_names_spec (a11 !!! i) (a12 !!! i) (a21 !!! i) (a22 !!! i)).
    apply Forall2_fmap, Forall_Forall2_diag, HS.
  - eapply phase_lookup; [exact HS | in_phase].
  - apply sum_sq_phase.
Qed.

(** C9, as it is stated, fails on the numbers that the code computes:
    in binary64 arithmetic, with [A11 = 0.1], [A22 = 0.3] and
    [A12 = A21 = 0], the exact sum of the squares of the sixteen entries
    is not four times the exact square of [S11]. *)
Lemma sum_of_squares_rounded :
  ∃ (S : list PrimFloat.float) (U : list Z) (u11 : Z),
    Binary64.Cell17.phase Binary64.Sample.A11 Binary64.Sample.A12
      Binary64.Sample.A21 Binary64.Sample.A22 = Some S ∧
    mapM Binary64.units S = Some U ∧
    U !! 0%nat = Some u11 ∧
    Binary64.sum_sq U ≠ (4 * u11 ^ 2)%Z.
Proof.
  do 3 eexists. split; [vm_compute; reflexivity|].
  split; [vm_compute; reflexivity|].
  split; [reflexivity|].
  vm_compute. discriminate.
Qed.

(** ** The theorems at the sample name spaces *)

Lemma amplitude_entries_sample :
  ∃ e', Cell16.run Sample.fields = (Ok (), e') ∧
    ∀ i θ fz fy,
      Sample.theta !! i = Some θ → Sample.ffp_z !! i = Some fz →
      Sample.ffp_y !! i = Some fy →
      entry (carrays e') "A22" i = Some (Spec.A22 5 fz) ∧
      entry (carrays e') "A12" i = Some (Spec.A12 5 θ fz) ∧
      entry (carrays e') "A11" i = Some (Spec.A11 5 θ fy) ∧
      entry (carrays e') "A21" i = Some (Spec.A21 5 fy).
Proof.
  apply (amplitude_entries Sample.fields 5 Sample.theta
           Sample.ffp_z Sample.ffp_y); reflexivity.
Defined.


Lemma S11_positive_sample :
  ∃ e', Cell17.run Sample.amplitudes = (Ok (), e') ∧
    ∀ i, (i < 2)%nat →
      ∃ s11, entry (farrays e') "S11" i = Some s11 ∧ 0 <= s11.
Proof.
  apply (S11_positive Sample.amplitudes Sample.A11 Sample.A12
           Sample.A21 Sample.A22); reflexivity.
Defined.

Lemma S11_bounds_S12_S21_sample :
  ∃ e', Cell17.run Sample.amplitudes = (Ok (), e') ∧
    ∀ i, (i < 2)%nat →
      ∃ s11 s12 s21,
        entry (farrays e') "S11" i = Some s11 ∧
        entry (farrays e') "S12" i = Some s12 ∧
        entry (farrays e') "S21" i = Some s21 ∧
        Rabs s12 <= s11 ∧ Rabs s21 <= s11.
Proof.
  apply (S11_bounds_S12_S21 Sample.amplitudes Sample.A11 Sample.A12
           Sample.A21 Sample.A22); reflexivity.
Defined.

Lemma sum_of_squares_sample :
  ∃ e', Cell17.run Sample.amplitudes = (Ok (), e') ∧
    ∀ i, (i < 2)%nat →
      ∃ (S : list R) (s11 : R),
        Forall2 (λ x s, entry (farrays e') x i = Some s) phase_names S ∧
        entry (farrays e') "S11" i = Some s11 ∧
        sum_sq S = 4 * s11 ^ 2.
Proof.
  apply (sum_of_squares Sample.amplitudes Sample.A11 Sample.A12
           Sample.A21 Sample.A22); reflexivity.
Defined.

(** ** Cell 14: the angle grid *)

Lemma length_linspace a b num : length (np.linspace a b num) = num.
Proof.
  unfold np.linspace. case_decide.
  - by rewrite length_insert, length_fmap, length_seq.
  - by rewrite length_fmap, length_seq.
Qed.

Lemma lookup_linspace a b num i :
  (1 < num)%nat → (i < num)%nat →
  np.linspace a b num !! i = Some (a + INR i * (b - a) / INR (num - 1)).
Proof.
  intros Hnum Hi. unfold np.linspace. rewrite decide_True by done.
  assert (INR (num - 1) ≠ 0) as Hdiv by (apply not_0_INR; lia).
  destruct (decide (i = num - 1)%nat) as [->|Hne].
  - rewrite list_lookup_insert_eq by (rewrite length_fmap, length_seq; lia).
    f_equal. by field.
  - rewrite list_lookup_insert_ne by done.
    rewrite list_lookup_fmap, lookup_seq_lt by done. simpl.
    f_equal. by field.
Qed.

Lemma has_shape_linspace a b num :
  (1 < num)%nat →
  has_shape (Ok (np.linspace a b num)) num
    (λ i, a + INR i * (b - a) / INR (num - 1)).
Proof.
  intros Hnum. eexists. repeat split.
  - apply length_linspace.
  - intros i Hi. by apply lookup_linspace.
Qed.

Lemma has_shape_vstack3 {T} (r0 r1 r2 : outcome (list T)) n g0 g1 g2 :
  has_shape r0 n g0 → has_shape r1 n g1 → has_shape r2 n g2 →
  has_shape (np.vstack3 r0 r1 r2) n (λ i, Vec3 (g0 i) (g1 i) (g2 i)).
Proof.
  intros (a & -> & Na & Ha) (b & -> & Nb & Hb) (c & -> & Nc & Hc).
  eexists. split; [|split].
  - simpl. rewrite decide_True by (split; congruence). reflexivity.
  - rewrite length_zip_with, length_zip. lia.
  - intros i Hi.
    rewrite lookup_zip_with, lookup_zip_with, (Ha i Hi), (Hb i Hi), (Hc i Hi).
    reflexivity.
Qed.

Lemma INR_3600 : INR 3600 = 3600.
Proof. rewrite INR_IZR_INZ. reflexivity. Qed.

(** The angle of index [i]. *)
Lemma theta_shape e :
  has_shape (Cell14.theta e) 3601 (λ i, INR i * (2 * PI) / 3600).
Proof.
  eapply has_shape_ext; [apply has_shape_linspace; lia|].
  intros i _. cbv beta.
  replace (3601 - 1)%nat with 3600%nat by lia.
  rewrite INR_3600. field.
Qed.

Lemma points_shape e th n :
  farrays e !! "theta" = Some th → length th = n →
  has_shape (Cell14.points e) n
    (λ i, Vec3 (cos (th !!! i)) (sin (th !!! i)) 0).
Proof.
  intros Hth Nth. unfold Cell14.points. cbv zeta.
  eapply has_shape_ext; [apply has_shape_vstack3; shape|].
  intros i _. cbv beta. f_equal. simpl. ring.
Qed.

Lemma Cell14_run_Ok e :
  ∃ th pts,
    Cell14.run e = (Ok (), bind_fmat "points" pts (bind_farray "theta" th e)) ∧
    has_shape (Ok th) 3601 (λ i, INR i * (2 * PI) / 3600) ∧
    has_shape (Ok pts) 3601
      (λ i, let θ := INR i * (2 * PI) / 3600 in Vec3 (cos θ) (sin θ) 0).
Proof.
  destruct (theta_shape e) as (th & Eth & Nth & Hth).
  set (e1 := bind_farray "theta" th e).
  destruct (points_shape e1 th 3601) as (pts & Epts & Npts & Hpts);
    [apply lookup_insert_eq | done |].
  exists th, pts. split; [|split].
  - unfold Cell14.run.
    rewrite (then_Ok _ _ e e1) by by apply assign_Ok.
    by apply assign_Ok.
  - exists th. by repeat split.
  - eexists. repeat split; [done|]. intros i Hi.
    rewrite (Hpts i Hi). cbv zeta.
    by rewrite (list_lookup_total_correct _ _ _ (Hth i Hi)).
Qed.

(** Two angles of one turn that give the same direction are its two
    ends. *)
Lemma direction_inj a b :
  0 <= a → a < b → b <= 2 * PI →
  cos a = cos b → sin a = sin b → a = 0 ∧ b = 2 * PI.
Proof.
  intros Ha Hab Hb Hc Hs.
  assert (sin (b - a) = 0) as Hs0.
  { rewrite sin_minus, Hc, Hs. ring. }
  assert (cos (b - a) = 1) as Hc1.
  { rewrite cos_minus, Hc, Hs.
    pose proof (sin2_cos2 b) as H. unfold Rsqr in H. lra. }
  destruct (sin_eq_O_2PI_0 (b - a)) as [H|[H|H]]; try lra.
  rewrite H, cos_PI in Hc1. lra.
Qed.



(** ** The round-trip scenario *)

Section scenario_pointwise.
Variable θ : R.
Let Ez : vec3 complex := Vec3 (RtoC 0) (RtoC 0) (RtoC 1).
Let Ey : vec3 complex := Vec3 (RtoC 0) (RtoC 1) (RtoC 0).

Lemma scenario_A22 : Spec.A22 5 Ez = Cplx 0 (-5).
Proof. apply complex_eq; simpl; ring. Qed.

Lemma scenario_A12 : Spec.A12 5 θ Ez = Cplx 0 0.
Proof. apply complex_eq; simpl; ring. Qed.

Lemma scenario_A11 : Spec.A11 5 θ Ey = Cplx 0 (-5 * cos θ).
Proof. apply complex_eq; simpl; ring. Qed.

Lemma scenario_A21 : Spec.A21 5 Ey = Cplx 0 0.
Proof. apply complex_eq; simpl; ring. Qed.

Lemma scenario_S11 :
  Spec.S11 (Cplx 0 (-5 * cos θ)) (Cplx 0 0) (Cplx 0 0) (Cplx 0 (-5))
  = 1 / 2 * (25 * cos θ ^ 2 + 25).
Proof. unfold Spec.S11, Spec.Cmod2; simpl. field. Qed.
End scenario_pointwise.

Lemma theta_not_phase_name : "theta" ∉ phase_names.
Proof.
  unfold phase_names.
  repeat (apply not_elem_of_cons; split; [discriminate|]).
  apply not_elem_of_nil.
Qed.


(** ** Cell 16 as a function of its inputs *)

(** Looking a name up through a pile of bindings. *)
Ltac lookup_bindings :=
  repeat first
    [ rewrite lookup_bind_carray_eq
    | rewrite lookup_bind_carray_ne by discriminate ].

(** All the ways in which cell 16 can end: it stops at the first
    right-hand side that raises, and keeps the bindings made so far. *)
Lemma Cell16_run_cases e :
  Cell16.run e =
    match Cell16.A22 e with
    | Raise ex => (Raise ex, e)
    | Ok a22 =>
      match Cell16.A12 e with
      | Raise ex => (Raise ex, bind_carray "A22" a22 e)
      | Ok a12 =>
        match Cell16.A11 e with
        | Raise ex =>
            (Raise ex, bind_carray "A12" a12 (bind_carray "A22" a22 e))
        | Ok a11 =>
          match Cell16.A21 e with
          | Raise ex =>
              (Raise ex, bind_carray "A11" a11 (bind_carray "A12" a12
                           (bind_carray "A22" a22 e)))
          | Ok a21 =>
              (Ok (), bind_carray "A21" a21 (bind_carray "A11" a11
                        (bind_carray "A12" a12 (bind_carray "A22" a22 e))))
          end
        end
      end
    end.
Proof.
  unfold Cell16.run, then_, assign.
  destruct (Cell16.A22 e) as [a22|] eqn:E22; [|done].
  change (Cell16.A12 (bind_carray "A22" a22 e)) with (Cell16.A12 e).
  destruct (Cell16.A12 e) as [a12|] eqn:E12; [|done].
  change (Cell16.A11 (bind_carray "A12" a12 (bind_carray "A22" a22 e)))
    with (Cell16.A11 e).
  destruct (Cell16.A11 e) as [a11|] eqn:E11; [|done].
  change (Cell16.A21 (bind_carray "A11" a11 (bind_carray "A12" a12
            (bind_carray "A22" a22 e)))) with (Cell16.A21 e).
  by destruct (Cell16.A21 e).
Qed.


Section same_inputs.
Context (e1 e2 : env).
Hypothesis Hk : floats e1 !! "kExt" = floats e2 !! "kExt".
Hypothesis Hth : farrays e1 !! "theta" = farrays e2 !! "theta".

Lemma A22_same :
  cmats e1 !! "ffp_z" = cmats e2 !! "ffp_z" → Cell16.A22 e1 = Cell16.A22 e2.
Proof. intros Hz. unfold Cell16.A22, load. by rewrite Hk, Hz. Qed.

Lemma A12_same :
  cmats e1 !! "ffp_z" = cmats e2 !! "ffp_z" → Cell16.A12 e1 = Cell16.A12 e2.
Proof. intros Hz. unfold Cell16.A12, load. by rewrite Hk, Hth, Hz. Qed.

Lemma A11_same :
  cmats e1 !! "ffp_y" = cmats e2 !! "ffp_y" → Cell16.A11 e1 = Cell16.A11 e2.
Proof. intros Hy. unfold Cell16.A11, load. by rewrite Hk, Hth, Hy. Qed.

Lemma A21_same :
  cmats e1 !! "ffp_y" = cmats e2 !! "ffp_y" → Cell16.A21 e1 = Cell16.A21 e2.
Proof. intros Hy. unfold Cell16.A21, load. by rewrite Hk, Hy. Qed.
End same_inputs.

Lemma bind_carray_id x v e : carrays e !! x = Some v → bind_carray x v e = e.
Proof.
  intros Hx. destruct e; unfold bind_carray; simpl in *.
  f_equal. by apply insert_id.
Qed.

(** Cell 16 binds complex arrays only. *)
Lemma Cell16_run_frame e :
  floats (Cell16.run e).2 = floats e ∧
  farrays (Cell16.run e).2 = farrays e ∧
  fmats (Cell16.run e).2 = fmats e ∧
  cmats (Cell16.run e).2 = cmats e.
Proof.
  rewrite Cell16_run_cases.
  destruct (Cell16.A22 e), (Cell16.A12 e), (Cell16.A11 e), (Cell16.A21 e);
    repeat split.
Qed.

(** Running the cell again in the name space it has left reproduces
    its outcome and leaves that name space as it is. *)
Lemma Cell16_run_again e : Cell16.run (Cell16.run e).2 = Cell16.run e.
Proof.
  pose proof (Cell16_run_frame e) as (Hf & Ha & _ & Hc).
  rewrite (Cell16_run_cases (Cell16.run e).2).
  rewrite (A22_same _ e), (A12_same _ e), (A11_same _ e), (A21_same _ e)
    by (by rewrite ?Hf, ?Ha, ?Hc).
  rewrite (Cell16_run_cases e).
  destruct (Cell16.A22 e) as [a22|]; [|done].
  destruct (Cell16.A12 e) as [a12|]; cbn [snd].
  2:{ f_equal. apply bind_carray_id, lookup_bind_carray_eq. }
  destruct (Cell16.A11 e) as [a11|]; cbn [snd].
  2:{ f_equal. rewrite (bind_carray_id "A22").
      - apply bind_carray_id, lookup_bind_carray_eq.
      - rewrite !lookup_bind_carray_ne by discriminate.
        apply lookup_bind_carray_eq. }
  destruct (Cell16.A21 e) as [a21|]; cbn [snd].
  2:{ f_equal. rewrite (bind_carray_id "A22"), (bind_carray_id "A12").
      - apply bind_carray_id, lookup_bind_carray_eq.
      - rewrite !lookup_bind_carray_ne by discriminate.
        apply lookup_bind_carray_eq.
      - rewrite !lookup_bind_carray_ne by discriminate.
        apply lookup_bind_carray_eq. }
  f_equal.
  rewrite (bind_carray_id "A22"), (bind_carray_id "A12"),
    (bind_carray_id "A11").
  - apply bind_carray_id, lookup_bind_carray_eq.
  - rewrite !lookup_bind_carray_ne by discriminate.
    apply lookup_bind_carray_eq.
  - rewrite !lookup_bind_carray_ne by discriminate.
    apply lookup_bind_carray_eq.
  - rewrite !lookup_bind_carray_ne by discriminate.
    apply lookup_bind_carray_eq.
Qed.

(** C8.  The outcome of cell 16 and the four arrays it binds are
    determined by [kExt], [theta], [ffp_z] and [ffp_y] alone: two
    kernels that agree on these four names end in the same way and with
    the same [A11], [A12], [A21], [A22], whatever else they hold.  The
    cell leaves every name other than these four arrays as it was, and
    running it a second time changes nothing. *)
Theorem amplitude_deterministic e1 e2 :
  floats e1 !! "kExt" = floats e2 !! "kExt" →
  farrays e1 !! "theta" = farrays e2 !! "theta" →
  cmats e1 !! "ffp_z" = cmats e2 !! "ffp_z" →
  cmats e1 !! "ffp_y" = cmats e2 !! "ffp_y" →
  (Cell16.run e1).1 = (Cell16.run e2).1 ∧
  ((Cell16.run e1).1 = Ok () →
   ∀ x, x ∈ ["A11"; "A12"; "A21"; "A22"] →
     carrays (Cell16.run e1).2 !! x = carrays (Cell16.run e2).2 !! x) ∧
  (floats (Cell16.run e1).2 = floats e1 ∧
   farrays (Cell16.run e1).2 = farrays e1 ∧
   fmats (Cell16.run e1).2 = fmats e1 ∧
   cmats (Cell16.run e1).2 = cmats e1 ∧
   ∀ x, x ∉ ["A11"; "A12"; "A21"; "A22"] →
     carrays (Cell16.run e1).2 !! x = carrays e1 !! x) ∧
  Cell16.run (Cell16.run e1).2 = Cell16.run e1.
Proof.
  intros Hk Hth Hz Hy.
  split; [|split; [|split]].
  - rewrite !Cell16_run_cases.
    rewrite (A22_same e1 e2), (A12_same e1 e2), (A11_same e1 e2),
      (A21_same e1 e2) by done.
    by destruct (Cell16.A22 e2), (Cell16.A12 e2), (Cell16.A11 e2),
      (Cell16.A21 e2).
  - rewrite !Cell16_run_cases.
    rewrite (A22_same e1 e2), (A12_same e1 e2), (A11_same e1 e2),
      (A21_same e1 e2) by done.
    destruct (Cell16.A22 e2), (Cell16.A12 e2), (Cell16.A11 e2),
      (Cell16.A21 e2); try discriminate.
    intros _ x Hx. cbn [snd].
    repeat (apply elem_of_cons in Hx as [->|Hx]);
      [..|by apply elem_of_nil in Hx];
      by lookup_bindings.
  - pose proof (Cell16_run_frame e1) as (? & ? & ? & ?).
    repeat split; try done.
    intros x Hx. repeat (apply not_elem_of_cons in Hx as [? Hx]).
    rewrite Cell16_run_cases.
    destruct (Cell16.A22 e1), (Cell16.A12 e1), (Cell16.A11 e1),
      (Cell16.A21 e1); cbn [snd];
      by rewrite ?lookup_bind_carray_ne by done.
  - apply Cell16_run_again.
Qed.

Lemma amplitude_deterministic_sample :
  (Cell16.run Sample.fields).1 = (Cell16.run Sample.fields_rerun).1 ∧
  ((Cell16.run Sample.fields).1 = Ok () →
   ∀ x, x ∈ ["A11"; "A12"; "A21"; "A22"] →
     carrays (Cell16.run Sample.fields).2 !! x
     = carrays (Cell16.run Sample.fields_rerun).2 !! x) ∧
  (floats (Cell16.run Sample.fields).2 = floats Sample.fields ∧
   farrays (Cell16.run Sample.fields).2 = farrays Sample.fields ∧
   fmats (Cell16.run Sample.fields).2 = fmats Sample.fields ∧
   cmats (Cell16.run Sample.fields).2 = cmats Sample.fields ∧
   ∀ x, x ∉ ["A11"; "A12"; "A21"; "A22"] →
     carrays (Cell16.run Sample.fields).2 !! x = carrays Sample.fields !! x) ∧
  Cell16.run (Cell16.run Sample.fields).2 = Cell16.run Sample.fields.
Proof.
  apply (amplitude_deterministic Sample.fields Sample.fields_rerun);
    reflexivity.
Defined.

(** C10.  The two polarizations do not interfere.  Among complete runs
    of cell 16 with the same [kExt] and [theta]: a run with the same
    [ffp_z] binds the same [A22] and [A12], whatever its [ffp_y]; a run
    with the same [ffp_y] binds the same [A11] and [A21], whatever its
    [ffp_z]. *)
Theorem polarizations_independent e ey ez :
  floats e !! "kExt" = floats ey !! "kExt" →
  floats e !! "kExt" = floats ez !! "kExt" →
  farrays e !! "theta" = farrays ey !! "theta" →
  farrays e !! "theta" = farrays ez !! "theta" →
  cmats e !! "ffp_z" = cmats ey !! "ffp_z" →
  cmats e !! "ffp_y" = cmats ez !! "ffp_y" →
  (Cell16.run e).1 = Ok () →
  (Cell16.run ey).1 = Ok () →
  (Cell16.run ez).1 = Ok () →
  (carrays (Cell16.run e).2 !! "A22" = carrays (Cell16.run ey).2 !! "A22" ∧
   carrays (Cell16.run e).2 !! "A12" = carrays (Cell16.run ey).2 !! "A12") ∧
  (carrays (Cell16.run e).2 !! "A11" = carrays (Cell16.run ez).2 !! "A11" ∧
   carrays (Cell16.run e).2 !! "A21" = carrays (Cell16.run ez).2 !! "A21").
Proof.
  intros Hky Hkz Hty Htz Hz Hy.
  rewrite !Cell16_run_cases.
  rewrite <- (A22_same e ey), <- (A12_same e ey) by done.
  rewrite <- (A11_same e ez), <- (A21_same e ez) by done.
  destruct (Cell16.A22 e); [|discriminate].
  destruct (Cell16.A12 e); [|discriminate].
  destruct (Cell16.A11 e); [|discriminate].
  destruct (Cell16.A21 e); [|discriminate].
  intros _.
  destruct (Cell16.A11 ey); [|discriminate].
  destruct (Cell16.A21 ey); [|discriminate].
  intros _.
  destruct (Cell16.A22 ez); [|discriminate].
  destruct (Cell16.A12 ez); [|discriminate].
  intros _. cbn [snd].
  repeat split; by lookup_bindings.
Qed.

Lemma polarizations_independent_sample :
  (carrays (Cell16.run Sample.fields).2 !! "A22"
   = carrays (Cell16.run Sample.fields_other_y).2 !! "A22" ∧
   carrays (Cell16.run Sample.fields).2 !! "A12"
   = carrays (Cell16.run Sample.fields_other_y).2 !! "A12") ∧
  (carrays (Cell16.run Sample.fields).2 !! "A11"
   = carrays (Cell16.run Sample.fields_other_z).2 !! "A11" ∧
   carrays (Cell16.run Sample.fields).2 !! "A21"
   = carrays (Cell16.run Sample.fields_other_z).2 !! "A21").
Proof.
  apply (polarizations_independent Sample.fields Sample.fields_other_y
           Sample.fields_other_z); reflexivity.
Defined.

(** ** Operands of different lengths *)

Lemma broadcast_mismatch {A B D} (f : A → B → D) (x : list A) (y : list B) :
  length x ≠ length y → length x ≠ 1%nat → length y ≠ 1%nat →
  np.broadcast f x y = Raise ValueError.
Proof.
  intros Hxy Hx Hy. unfold np.broadcast. rewrite decide_False by done.
  destruct x as [|? [|]], y as [|? [|]]; simpl in *; done.
Qed.

Lemma binop_mismatch {A B D} (f : A → B → D) r1 r2 n1 n2 g1 g2 :
  has_shape r1 n1 g1 → has_shape r2 n2 g2 →
  n1 ≠ n2 → n1 ≠ 1%nat → n2 ≠ 1%nat →
  np.binop f r1 r2 = Raise ValueError.
Proof.
  intros (l1 & -> & <- & _) (l2 & -> & <- & _) ???.
  by apply broadcast_mismatch.
Qed.

(** The operator of the goal whose operands have [n1] and [n2] elements
    raises. *)
Ltac raise_at n1 n2 :=
  unfold np.add, np.subtract, np.multiply;
  match goal with
  | |- context [np.binop ?f ?x ?y] =>
      erewrite (binop_mismatch f x y n1 n2);
        [ | solve [shape] | solve [shape] | done | done | done ]
  end.

Section Cell16_mismatch.
Context (e : env) (k : R) (th : list R) (Fz Fy : list (vec3 complex)).
Hypothesis Hk : floats e !! "kExt" = Some k.
Hypothesis Hth : farrays e !! "theta" = Some th.
Hypothesis Hz : cmats e !! "ffp_z" = Some Fz.
Hypothesis Hy : cmats e !! "ffp_y" = Some Fy.
Hypothesis Nth : length th ≠ 1%nat.

Lemma A12_mismatch :
  length Fz ≠ length th → length Fz ≠ 1%nat →
  Cell16.A12 e = Raise ValueError.
Proof.
  intros Nz Nz1. unfold Cell16.A12.
  raise_at (length th) (length Fz).
  unfold load. by rewrite Hk.
Qed.

Lemma A11_mismatch :
  length Fy ≠ length th → length Fy ≠ 1%nat →
  Cell16.A11 e = Raise ValueError.
Proof.
  intros Ny Ny1. unfold Cell16.A11.
  raise_at (length th) (length Fy).
  unfold load. by rewrite Hk.
Qed.

(** With operands that do not fit, cell 16 raises [ValueError] from
    its second or third statement: [A22] is bound by then, [A11] and
    [A21] are not. *)
Lemma Cell16_mismatch :
  length Fz ≠ 1%nat → length Fy ≠ 1%nat →
  ¬ (length Fz = length th ∧ length Fy = length th) →
  ∃ e' a22,
    Cell16.run e = (Raise ValueError, e') ∧
    carrays e' !! "A22" = Some a22 ∧ length a22 = length Fz ∧
    carrays e' !! "A11" = carrays e !! "A11" ∧
    carrays e' !! "A21" = carrays e !! "A21".
Proof.
  intros Nz1 Ny1 Hne.
  destruct (A22_shape e k (length Fz) Fz Hk Hz eq_refl)
    as (a22 & E22 & L22 & _).
  rewrite Cell16_run_cases, E22.
  destruct (decide (length Fz = length th)) as [Ez|Ez].
  - destruct (A12_shape e k (length th) th Fz Hk Hth Hz eq_refl Ez)
      as (a12 & E12 & _).
    rewrite E12, A11_mismatch by tauto.
    eexists _, a22. repeat split; try done; by lookup_bindings.
  - rewrite A12_mismatch by done.
    eexists _, a22. repeat split; try done; by lookup_bindings.
Qed.
End Cell16_mismatch.

Section Cell17_mismatch.
Context (e : env) (a11 a12 a21 a22 : list complex).
Hypothesis H11 : carrays e !! "A11" = Some a11.
Hypothesis H12 : carrays e !! "A12" = Some a12.
Hypothesis H21 : carrays e !! "A21" = Some a21.
Hypothesis H22 : carrays e !! "A22" = Some a22.
Hypothesis N11 : length a11 ≠ 1%nat.
Hypothesis N12 : length a12 ≠ 1%nat.
Hypothesis N21 : length a21 ≠ 1%nat.
Hypothesis N22 : length a22 ≠ 1%nat.

Lemma S11_mismatch :
  ¬ (length a12 = length a11 ∧ length a21 = length a11 ∧
     length a22 = length a11) →
  Cell17.S11 e = Raise ValueError.
Proof.
  intros Hne. unfold Cell17.S11.
  destruct (decide (length a22 = length a11)) as [E22|E22].
  - destruct (decide (length a21 = length a11)) as [E21|E21].
    + assert (length a11 ≠ length a12) by (intros E12; apply Hne; by rewrite <- E12).
      by raise_at (length a11) (length a12).
    + by raise_at (length a11) (length a21).
  - by raise_at (length a11) (length a22).
Qed.

(** With amplitude arrays that do not fit, cell 17 raises
    [ValueError] from its first statement and binds nothing. *)
Lemma Cell17_mismatch :
  ¬ (length a12 = length a11 ∧ length a21 = length a11 ∧
     length a22 = length a11) →
  Cell17.run e = (Raise ValueError, e).
Proof.
  intros Hne. unfold Cell17.run.
  apply then_Raise, assign_Raise. by apply S11_mismatch.
Qed.
End Cell17_mismatch.

(** C7, as the code has it.  There is no check of the lengths ahead of
    the builders.  When the lengths of [theta], [ffp_z] and [ffp_y]
    differ and none of them is 1, cell 16 raises numpy's [ValueError]
    from inside the builder: [A22] has been bound by then.  When the
    lengths of [A11], [A12], [A21] and [A22] differ and none of them is
    1, cell 17 raises [ValueError] from its first statement. *)
Theorem shape_mismatch_raises e16 k th Fz Fy e17 a11 a12 a21 a22 :
  floats e16 !! "kExt" = Some k →
  farrays e16 !! "theta" = Some th →
  cmats e16 !! "ffp_z" = Some Fz →
  cmats e16 !! "ffp_y" = Some Fy →
  length th ≠ 1%nat → length Fz ≠ 1%nat → length Fy ≠ 1%nat →
  ¬ (length Fz = length th ∧ length Fy = length th) →
  carrays e17 !! "A11" = Some a11 → carrays e17 !! "A12" = Some a12 →
  carrays e17 !! "A21" = Some a21 → carrays e17 !! "A22" = Some a22 →
  length a11 ≠ 1%nat → length a12 ≠ 1%nat →
  length a21 ≠ 1%nat → length a22 ≠ 1%nat →
  ¬ (length a12 = length a11 ∧ length a21 = length a11 ∧
     length a22 = length a11) →
  (∃ e' v22,
     Cell16.run e16 = (Raise ValueError, e') ∧
     carrays e' !! "A22" = Some v22 ∧ length v22 = length Fz ∧
     carrays e' !! "A11" = carrays e16 !! "A11" ∧
     carrays e' !! "A21" = carrays e16 !! "A21") ∧
  Cell17.run e17 = (Raise ValueError, e17).
Proof.
  intros. split.
  - by eapply Cell16_mismatch.
  - by eapply Cell17_mismatch.
Qed.

Lemma shape_mismatch_raises_sample :
  (∃ e' v22,
     Cell16.run Sample.long_z = (Raise ValueError, e') ∧
     carrays e' !! "A22" = Some v22 ∧ length v22 = 3%nat ∧
     carrays e' !! "A11" = carrays Sample.long_z !! "A11" ∧
     carrays e' !! "A21" = carrays Sample.long_z !! "A21") ∧
  Cell17.run Sample.ragged_amplitudes
  = (Raise ValueError, Sample.ragged_amplitudes).
Proof.
  apply (shape_mismatch_raises
           Sample.long_z 5 Sample.theta
           (Sample.ffp_z ++ take 1 Sample.ffp_y) Sample.ffp_y
           Sample.ragged_amplitudes
           Sample.A11 Sample.A12 (Sample.A21 ++ Sample.A22) Sample.A22);
    try reflexivity; simpl; lia.
Defined.

(** C7, as it is stated, fails: with two angles, two samples of [ffp_z]
    and a single sample of [ffp_y], the single sample is stretched and
    cells 16 and 17 complete without any error. *)
Lemma short_far_field_accepted :
  cmats Sample.short_y !! "ffp_z" = Some Sample.ffp_z ∧
  cmats Sample.short_y !! "ffp_y" = Some (take 1 Sample.ffp_y) ∧
  length Sample.ffp_z = 2%nat ∧
  length (take 1 Sample.ffp_y) = 1%nat ∧
  ((Cell16.run ;; Cell17.run)%stmt Sample.short_y).1 = Ok ().
Proof. repeat split. Qed.

(** * Further properties *)

(** ** Cell 14: what it binds *)

(** X1.  Cell 14 completes in every name space.  It binds [theta] to
    3601 angles and [points] to 3601 columns whose third component is
    zero, and rebinds no other name. *)
Theorem directions_planar e :
  ∃ e' th pts, Cell14.run e = (Ok (), e') ∧
    farrays e' !! "theta" = Some th ∧ fmats e' !! "points" = Some pts ∧
    length th = 3601%nat ∧ length pts = 3601%nat ∧
    Forall (λ d, vz d = 0) pts ∧
    floats e' = floats e ∧ carrays e' = carrays e ∧ cmats e' = cmats e ∧
    (∀ x, x ≠ "theta" → farrays e' !! x = farrays e !! x) ∧
    (∀ x, x ≠ "points" → fmats e' !! x = fmats e !! x).
Proof.
  destruct (Cell14_run_Ok e) as (th & pts & Hrun & Sth & Spts).
  eexists; exists th, pts. split; [exact Hrun|].
  pose proof (has_shape_length _ _ _ Sth) as Nth.
  pose proof (has_shape_length _ _ _ Spts) as Npts.
  repeat split; try done.
  - simpl. apply lookup_insert_eq.
  - simpl. apply lookup_insert_eq.
  - apply Forall_lookup. intros i d Hd.
    assert (i < 3601)%nat as Hi.
    { rewrite <- Npts. by eapply lookup_lt_Some. }
    rewrite (has_shape_lookup _ _ _ _ Spts Hi) in Hd.
    by injection Hd as <-.
  - intros x Hx. simpl. by rewrite lookup_insert_ne.
  - intros x Hx. simpl. by rewrite lookup_insert_ne.
Qed.

(** ** Cells 16 and 17 in a row *)

Lemma lookup_bind_farray_eq x v e :
  farrays (bind_farray x v e) !! x = Some v.
Proof. simpl. by rewrite lookup_insert_eq. Qed.

(** A complete run of cell 17 binds sixteen arrays of [n] elements. *)
Lemma Cell17_run_lengths e n a11 a12 a21 a22 :
  carrays e !! "A11" = Some a11 → carrays e !! "A12" = Some a12 →
  carrays e !! "A21" = Some a21 → carrays e !! "A22" = Some a22 →
  length a11 = n → length a12 = n → length a21 = n → length a22 = n →
  ∃ e', Cell17.run e = (Ok (), e') ∧
    ∀ x, x ∈ phase_names → ∃ l, farrays e' !! x = Some l ∧ length l = n.
Proof.
  intros H11 H12 H21 H22 N11 N12 N21 N22.
  remember (Cell17.run e) as r eqn:Hr. unfold Cell17.run in Hr.
  phase_step S11_shape Hr. phase_step S12_shape Hr.
  phase_step S13_shape Hr. phase_step S14_shape Hr.
  phase_step S21_shape Hr. phase_step S22_shape Hr.
  phase_step S23_shape Hr. phase_step S24_shape Hr.
  phase_step S31_shape Hr. phase_step S32_shape Hr.
  phase_step S33_shape Hr. phase_step S34_shape Hr.
  phase_step S41_shape Hr. phase_step S42_shape Hr.
  phase_step S43_shape Hr. phase_step S44_shape Hr.
  subst r. eexists. split; [reflexivity|].
  intros x Hx. unfold phase_names in Hx.
  repeat (apply elem_of_cons in Hx as [->|Hx]);
    [..|by apply elem_of_nil in Hx];
    rewrite ?lookup_bind_farray_ne by discriminate;
    rewrite lookup_bind_farray_eq; eauto.
Qed.

(** Cells 16 and 17 in a row, on [n]-sample inputs. *)
Lemma Cell16_17_run_Ok e k n th Fz Fy :
  floats e !! "kExt" = Some k →
  farrays e !! "theta" = Some th →
  cmats e !! "ffp_z" = Some Fz →
  cmats e !! "ffp_y" = Some Fy →
  length th = n → length Fz = n → length Fy = n →
  ∃ e' a22 a12 a11 a21,
    (Cell16.run ;; Cell17.run)%stmt e = (Ok (), e') ∧
    carrays e' !! "A22" = Some a22 ∧ carrays e' !! "A12" = Some a12 ∧
    carrays e' !! "A11" = Some a11 ∧ carrays e' !! "A21" = Some a21 ∧
    has_shape (Ok a22) n (λ i, Spec.A22 k (Fz !!! i)) ∧
    has_shape (Ok a12) n (λ i, Spec.A12 k (th !!! i) (Fz !!! i)) ∧
    has_shape (Ok a11) n (λ i, Spec.A11 k (th !!! i) (Fy !!! i)) ∧
    has_shape (Ok a21) n (λ i, Spec.A21 k (Fy !!! i)) ∧
    (∀ x, x ∈ phase_names → ∃ l, farrays e' !! x = Some l ∧ length l = n) ∧
    ∀ i, (i < n)%nat →
      Forall (λ p, entry (farrays e') p.1 i = Some p.2)
        (Spec.phase (a11 !!! i) (a12 !!! i) (a21 !!! i) (a22 !!! i)).
Proof.
  intros Hk Hth Hz Hy Nth Nz Ny.
  destruct (Cell16_run_Ok e k n th Fz Fy)
    as (a22 & a12 & a11 & a21 & Hrun16 & S22 & S12 & S11 & S21); try done.
  set (e2 := bind_carray "A21" a21 (bind_carray "A11" a11
               (bind_carray "A12" a12 (bind_carray "A22" a22 e))))
    in Hrun16.
  assert (carrays e2 !! "A11" = Some a11 ∧ carrays e2 !! "A12" = Some a12 ∧
          carrays e2 !! "A21" = Some a21 ∧ carrays e2 !! "A22" = Some a22)
    as (H11 & H12 & H21 & H22).
  { unfold e2. repeat split; by lookup_bindings. }
  pose proof (has_shape_length _ _ _ S11) as N11.
  pose proof (has_shape_length _ _ _ S12) as N12.
  pose proof (has_shape_length _ _ _ S21) as N21.
  pose proof (has_shape_length _ _ _ S22) as N22.
  destruct (Cell17_run_Ok e2 n a11 a12 a21 a22 H11 H12 H21 H22
              N11 N12 N21 N22) as (e3 & Hrun17 & Hc & _ & HS).
  destruct (Cell17_run_lengths e2 n a11 a12 a21 a22 H11 H12 H21 H22
              N11 N12 N21 N22) as (e3' & Hrun17' & HL).
  assert (e3' = e3) as -> by congruence.
  exists e3, a22, a12, a11, a21.
  rewrite (then_Ok _ _ _ _ Hrun16), Hc. by repeat split.
Qed.

(** X3.  Length invariant: on [N]-sample inputs, cells 16 and 17
    complete and each of the four amplitude arrays and of the sixteen
    phase arrays has exactly [N] elements. *)
Theorem pipeline_lengths e k th Fz Fy :
  floats e !! "kExt" = Some k →
  farrays e !! "theta" = Some th →
  cmats e !! "ffp_z" = Some Fz →
  cmats e !! "ffp_y" = Some Fy →
  length Fz = length th → length Fy = length th →
  ∃ e', (Cell16.run ;; Cell17.run)%stmt e = (Ok (), e') ∧
    (∀ x, x ∈ ["A11"; "A12"; "A21"; "A22"] →
       ∃ l, carrays e' !! x = Some l ∧ length l = length th) ∧
    (∀ x, x ∈ phase_names →
       ∃ l, farrays e' !! x = Some l ∧ length l = length th).
Proof.
  intros Hk Hth Hz Hy Nz Ny.
  destruct (Cell16_17_run_Ok e k (length th) th Fz Fy)
    as (e' & a22 & a12 & a11 & a21 & Hrun & H22 & H12 & H11 & H21
        & S22 & S12 & S11 & S21 & HL & _); try done.
  exists e'. split; [done|]. split; [|done].
  intros x Hx.
  repeat (apply elem_of_cons in Hx as [->|Hx]);
    [..|by apply elem_of_nil in Hx];
    eexists; (split; [eassumption|]); by eapply has_shape_length.
Qed.

Lemma pipeline_lengths_sample :
  ∃ e', (Cell16.run ;; Cell17.run)%stmt Sample.fields = (Ok (), e') ∧
    (∀ x, x ∈ ["A11"; "A12"; "A21"; "A22"] →
       ∃ l, carrays e' !! x = Some l ∧ length l = 2%nat) ∧
    (∀ x, x ∈ phase_names →
       ∃ l, farrays e' !! x = Some l ∧ length l = 2%nat).
Proof.
  apply (pipeline_lengths Sample.fields 5 Sample.theta
           Sample.ffp_z Sample.ffp_y); reflexivity.
Defined.

(** ** Names that are not bound *)

(** X5.  When only the z-polarized far field is bound, cell 16 binds
    [A22] and [A12], then raises [NameError] for [ffp_y]; [A11] and
    [A21] stay as they were. *)
Theorem missing_ffp_y e k th Fz :
  floats e !! "kExt" = Some k →
  farrays e !! "theta" = Some th →
  cmats e !! "ffp_z" = Some Fz →
  cmats e !! "ffp_y" = None →
  length Fz = length th →
  ∃ e' a22 a12,
    Cell16.run e = (Raise (NameError "ffp_y"), e') ∧
    carrays e' !! "A22" = Some a22 ∧ length a22 = length th ∧
    carrays e' !! "A12" = Some a12 ∧ length a12 = length th ∧
    carrays e' !! "A11" = carrays e !! "A11" ∧
    carrays e' !! "A21" = carrays e !! "A21".
Proof.
  intros Hk Hth Hz Hy Nz.
  destruct (A22_shape e k (length th) Fz Hk Hz Nz) as (a22 & E22 & L22 & _).
  destruct (A12_shape e k (length th) th Fz Hk Hth Hz eq_refl Nz)
    as (a12 & E12 & L12 & _).
  assert (Cell16.A11 e = Raise (NameError "ffp_y")) as E11.
  { unfold Cell16.A11, load. by rewrite Hk, Hth, Hy. }
  rewrite Cell16_run_cases, E22, E12, E11.
  exists (bind_carray "A12" a12 (bind_carray "A22" a22 e)), a22, a12.
  repeat split; try done; by lookup_bindings.
Qed.

Lemma missing_ffp_y_sample :
  ∃ e' a22 a12,
    Cell16.run Sample2.fields_z_only = (Raise (NameError "ffp_y"), e') ∧
    carrays e' !! "A22" = Some a22 ∧ length a22 = 2%nat ∧
    carrays e' !! "A12" = Some a12 ∧ length a12 = 2%nat ∧
    carrays e' !! "A11" = carrays Sample2.fields_z_only !! "A11" ∧
    carrays e' !! "A21" = carrays Sample2.fields_z_only !! "A21".
Proof.
  apply (missing_ffp_y Sample2.fields_z_only 5 Sample.theta Sample.ffp_z);
    reflexivity.
Defined.

Lemma broadcast_fits {A B D} (f : A → B → D) x y :
  if fits (length x) (length y)
  then ∃ l, np.broadcast f x y = Ok l
            ∧ length l = stretched (length x) (length y)
  else np.broadcast f x y = Raise ValueError.
Proof.
  unfold fits, stretched, np.broadcast.
  case_bool_decide as Hf.
  - destruct (decide (length x = length y)) as [E|E].
    + eexists. split; [reflexivity|].
      rewrite length_zip_with. case_decide; lia.
    + destruct x as [|a [|]], y as [|b [|]]; simpl in *.
      all: try lia.
      all: try (eexists; split; [reflexivity|]; simpl; lia).
      all: eexists; (split; [reflexivity|]); simpl; do 2 f_equal;
        apply length_fmap.
  - rewrite decide_False by lia.
    destruct x as [|a [|]], y as [|b [|]]; simpl in *;
      first [ reflexivity | lia ].
Qed.

Lemma binop_Ok {A B D} (f : A → B → D) x y :
  np.binop f (Ok x) (Ok y) = np.broadcast f x y.
Proof. reflexivity. Qed.

Lemma power_abs_load (m : gmap string (list complex)) x :
  (np.abs (load m x) ** 2)%np
  = match m !! x with
    | Some a => Ok ((λ v, v ^ 2) <$> (Cabs <$> a))
    | None => Raise (NameError x)
    end.
Proof. unfold load. by destruct (m !! x). Qed.

(** X6.  Cell 17 needs the four amplitude arrays: when one of them is
    not bound, the cell raises from its first statement and binds
    nothing.  The statement reads [A11], [A22], [A21] and [A12] in this
    order and adds as it goes: the exception is [NameError] for the
    first of them that is not bound, unless two of the arrays read
    before it do not fit, which raises [ValueError] first. *)
Theorem missing_amplitude e :
  carrays e !! "A11" = None ∨ carrays e !! "A12" = None ∨
  carrays e !! "A21" = None ∨ carrays e !! "A22" = None →
  Cell17.run e =
    (Raise
       match length <$> carrays e !! "A11", length <$> carrays e !! "A22",
             length <$> carrays e !! "A21" with
       | None, _, _ => NameError "A11"
       | Some _, None, _ => NameError "A22"
       | Some n11, Some n22, o21 =>
           if fits n11 n22 then
             match o21 with
             | None => NameError "A21"
             | Some n21 =>
                 if fits (stretched n11 n22) n21 then NameError "A12"
                 else ValueError
             end
           else ValueError
       end, e).
Proof.
  intros Hmiss.
  unfold Cell17.run. apply then_Raise, assign_Raise.
  unfold Cell17.S11. rewrite !power_abs_load. unfold np.add.
  destruct (carrays e !! "A11") as [a11|] eqn:H11; [|done].
  destruct (carrays e !! "A22") as [a22|] eqn:H22; [|done].
  cbn [fmap option_fmap option_map].
  pose proof (broadcast_fits dadd ((λ v, v ^ 2) <$> (Cabs <$> a11))
                ((λ v, v ^ 2) <$> (Cabs <$> a22))) as F1.
  rewrite !length_fmap in F1.
  destruct (fits (length a11) (length a22)).
  2:{ by rewrite binop_Ok, F1. }
  destruct F1 as (l1 & E1 & L1). rewrite binop_Ok, E1.
  destruct (carrays e !! "A21") as [a21|] eqn:H21; [|done].
  cbn [fmap option_fmap option_map].
  pose proof (broadcast_fits dadd l1 ((λ v, v ^ 2) <$> (Cabs <$> a21))) as F2.
  rewrite !length_fmap, L1 in F2.
  destruct (fits (stretched (length a11) (length a22)) (length a21)).
  2:{ by rewrite binop_Ok, F2. }
  destruct F2 as (l2 & E2 & L2). rewrite binop_Ok, E2.
  destruct (carrays e !! "A12") as [a12|] eqn:H12; [|done].
  exfalso. destruct Hmiss as [?|[?|[?|?]]]; discriminate.
Qed.

Lemma missing_amplitude_sample :
  Cell17.run Sample2.two_amplitudes = (Raise ValueError, Sample2.two_amplitudes).
Proof.
  apply (missing_amplitude Sample2.two_amplitudes). right. left. reflexivity.
Defined.

(** ** The phase matrix of a sphere *)

Lemma phase_sphere z11 z22 :
  Spec.phase z11 (Cplx 0 0) (Cplx 0 0) z22 =
  let s11 := Spec.S11 z11 (Cplx 0 0) (Cplx 0 0) z22 in
  let s12 := Spec.S12 z11 (Cplx 0 0) (Cplx 0 0) z22 in
  let s33 := Spec.S33 z11 (Cplx 0 0) (Cplx 0 0) z22 in
  let s34 := Spec.S34 z11 (Cplx 0 0) (Cplx 0 0) z22 in
  [ ("S11", s11); ("S12", s12); ("S13", 0);   ("S14", 0);
    ("S21", s12); ("S22", s11); ("S23", 0);   ("S24", 0);
    ("S31", 0);   ("S32", 0);   ("S33", s33); ("S34", s34);
    ("S41", 0);   ("S42", 0);   ("S43", - s34); ("S44", s33) ].
Proof.
  destruct z11 as [a b], z22 as [p q]. cbv zeta. unfold Spec.phase.
  repeat (apply f_equal2; [apply f_equal2; [reflexivity|] |]);
    try reflexivity;
    unfold Spec.S11, Spec.S12, Spec.S13, Spec.S14, Spec.S21, Spec.S22,
      Spec.S23, Spec.S24, Spec.S31, Spec.S32, Spec.S33, Spec.S34,
      Spec.S41, Spec.S42, Spec.S43, Spec.S44, Spec.Cmod2; simpl; ring.
Qed.

(** X9.  When [A12] and [A21] vanish, as for a sphere, the phase matrix
    that cell 17 binds is block diagonal at every index: the eight
    entries off the two diagonal blocks are zero, [S22 = S11],
    [S21 = S12], [S44 = S33] and [S43 = -S34]. *)
Theorem sphere_block_structure e a11 a12 a21 a22 :
  carrays e !! "A11" = Some a11 → carrays e !! "A12" = Some a12 →
  carrays e !! "A21" = Some a21 → carrays e !! "A22" = Some a22 →
  length a12 = length a11 → length a21 = length a11 →
  length a22 = length a11 →
  Forall (λ z, z = Cplx 0 0) a12 → Forall (λ z, z = Cplx 0 0) a21 →
  ∃ e', Cell17.run e = (Ok (), e') ∧
    ∀ i, (i < length a11)%nat →
      ∃ s11 s12 s33 s34,
        Forall (λ p, entry (farrays e') p.1 i = Some p.2)
          [ ("S11", s11); ("S12", s12); ("S13", 0);   ("S14", 0);
            ("S21", s12); ("S22", s11); ("S23", 0);   ("S24", 0);
            ("S31", 0);   ("S32", 0);   ("S33", s33); ("S34", s34);
            ("S41", 0);   ("S42", 0);   ("S43", - s34); ("S44", s33) ].
Proof.
  intros H11 H12 H21 H22 N12 N21 N22 Z12 Z21.
  destruct (Cell17_run_Ok e (length a11) a11 a12 a21 a22)
    as (e' & Hrun & _ & _ & HS); try done.
  exists e'. split; [done|]. intros i Hi.
  specialize (HS i Hi).
  assert (a12 !!! i = Cplx 0 0) as E12.
  { destruct (lookup_lt_is_Some_2 a12 i) as [z Hz]; [lia|].
    rewrite (list_lookup_total_correct _ _ _ Hz).
    by apply (proj1 (Forall_lookup _ _) Z12 i z). }
  assert (a21 !!! i = Cplx 0 0) as E21.
  { destruct (lookup_lt_is_Some_2 a21 i) as [z Hz]; [lia|].
    rewrite (list_lookup_total_correct _ _ _ Hz).
    by apply (proj1 (Forall_lookup _ _) Z21 i z). }
  rewrite E12, E21, phase_sphere in HS. cbv zeta in HS.
  by do 4 eexists.
Qed.

Lemma sphere_block_structure_sample :
  ∃ e', Cell17.run Sample2.sphere = (Ok (), e') ∧
    ∀ i, (i < 2)%nat →
      ∃ s11 s12 s33 s34,
        Forall (λ p, entry (farrays e') p.1 i = Some p.2)
          [ ("S11", s11); ("S12", s12); ("S13", 0);   ("S14", 0);
            ("S21", s12); ("S22", s11); ("S23", 0);   ("S24", 0);
            ("S31", 0);   ("S32", 0);   ("S33", s33); ("S34", s34);
            ("S41", 0);   ("S42", 0);   ("S43", - s34); ("S44", s33) ].
Proof.
  apply (sphere_block_structure Sample2.sphere Sample.A11 Sample2.zeros
           Sample2.zeros Sample.A22); try reflexivity;
    by repeat constructor.
Defined.

(** ** What the cells leave alone *)

Lemma assign_only_farrays x rhs :
  only_farrays [x] (assign bind_farray x rhs).
Proof.
  intros e. unfold assign. destruct (rhs e); cbn [snd]; repeat split.
  intros y Hy. apply not_elem_of_cons in Hy as [Hy _].
  by apply lookup_bind_farray_ne.
Qed.

Lemma then_only_farrays n1 n2 s1 s2 :
  only_farrays n1 s1 → only_farrays n2 s2 →
  only_farrays (n1 ++ n2) (s1 ;; s2)%stmt.
Proof.
  intros F1 F2 e. unfold then_.
  destruct (F1 e) as (A1 & B1 & C1 & D1 & E1).
  destruct (s1 e) as [[[]|ex] e1]; cbn [snd] in *.
  - destruct (F2 e1) as (A2 & B2 & C2 & D2 & E2).
    rewrite A2, B2, C2, D2. repeat split; try done.
    intros y Hy. apply not_elem_of_app in Hy as [Hy1 Hy2].
    by rewrite E2, E1.
  - repeat split; try done.
    intros y Hy. apply not_elem_of_app in Hy as [Hy1 _]. by apply E1.
Qed.

(** X11.  However cell 17 ends, it leaves every name other than
    [S11] .. [S44] as it was: the amplitude arrays, the angles and the
    far fields are never rebound. *)
Theorem phase_cell_frame : only_farrays phase_names Cell17.run.
Proof.
  unfold Cell17.run.
  repeat (apply (then_only_farrays [_]); [apply assign_only_farrays|]).
  apply assign_only_farrays.
Qed.

(** ** Cell 5: the material constants *)

Lemma kassign_Return {V} (store : string → V → kernel → kernel) x rhs κ v :
  rhs κ = Return v → kassign store x rhs κ = (Return (), store x v κ).
Proof. intros E. unfold kassign. by rewrite E. Qed.

Lemma kassign_Throw {V} (store : string → V → kernel → kernel) x rhs κ ex :
  rhs κ = Throw ex → kassign store x rhs κ = (Throw ex, κ).
Proof. intros E. unfold kassign. by rewrite E. Qed.

Lemma kthen_Return (s1 s2 : kstmt) κ κ1 :
  s1 κ = (Return (), κ1) → (s1 ;; s2)%kstmt κ = s2 κ1.
Proof. intros E. unfold kthen. by rewrite E. Qed.

Lemma complex_div_float_nonzero z d :
  d ≠ 0 → Cell5.complex_div_float z d = Return (z / RtoC d)%C.
Proof.
  intros Hd. unfold Cell5.complex_div_float. by destruct (Req_dec_T d 0).
Qed.

Lemma complex_div_float_zero z :
  Cell5.complex_div_float z 0 = Throw ZeroDivisionError.
Proof.
  unfold Cell5.complex_div_float. by destruct (Req_dec_T 0 0).
Qed.

Section Cell5_facts.
Context (κ : kernel) (k : R) (m : complex).
Hypothesis Hk : floats (arrays κ) !! "kExt" = Some k.
Hypothesis Hm : complexes κ !! "ref_ind" = Some m.

Let κ1 := bind_int "muInt" 1 κ.
Let κ2 := bind_int "muExt" 1 κ1.
Let κ3 := bind_complex "kInt" (RtoC k * m)%C κ2.

Lemma Cell5_run_rho : Cell5.run κ = kassign bind_complex "rho" Cell5.rho κ3.
Proof.
  unfold Cell5.run.
  rewrite (kthen_Return _ _ κ κ1) by done.
  rewrite (kthen_Return _ _ κ1 κ2) by done.
  rewrite (kthen_Return _ _ κ2 κ3); [done|].
  apply kassign_Return. unfold Cell5.kInt, read. cbn.
  by rewrite Hk, Hm.
Qed.

Lemma Cell5_rho :
  Cell5.rho κ3 = Cell5.complex_div_float (RtoC k * m * RtoC 1)%C (k * 1).
Proof.
  unfold Cell5.rho, read. cbn. rewrite Hk.
  rewrite lookup_insert_eq. cbn.
  rewrite lookup_insert_eq. cbn.
  rewrite lookup_insert_ne by done. rewrite lookup_insert_eq. cbn.
  done.
Qed.

End Cell5_facts.

(** X12.  With [kExt] not zero, cell 5 completes: it binds [muInt] and
    [muExt] to 1, [kInt] to the product of [kExt] and the refractive
    index and [rho] to the quotient [(kInt * muExt) / (kExt * muInt)],
    and leaves [ref_ind] and the array names alone. *)
Theorem material_constants κ k m :
  floats (arrays κ) !! "kExt" = Some k →
  complexes κ !! "ref_ind" = Some m →
  k ≠ 0 →
  ∃ κ', Cell5.run κ = (Return (), κ') ∧
    complexes κ' !! "kInt" = Some (RtoC k * m)%C ∧
    complexes κ' !! "rho"
      = Some (RtoC k * m * RtoC 1 / RtoC (k * 1))%C ∧
    complexes κ' !! "ref_ind" = Some m ∧
    ints κ' !! "muInt" = Some 1%Z ∧ ints κ' !! "muExt" = Some 1%Z ∧
    arrays κ' = arrays κ.
Proof.
  intros Hk Hm Hk0.
  rewrite (Cell5_run_rho κ k m Hk Hm).
  eexists. split.
  { apply kassign_Return. rewrite (Cell5_rho κ k m Hk).
    apply complex_div_float_nonzero. lra. }
  cbn. repeat split.
  - rewrite lookup_insert_ne by done. apply lookup_insert_eq.
  - apply lookup_insert_eq.
  - by rewrite !lookup_insert_ne by done.
  - rewrite lookup_insert_ne by done. apply lookup_insert_eq.
  - apply lookup_insert_eq.
Qed.

Lemma material_constants_sample :
  ∃ κ', Cell5.run Sample2.constants = (Return (), κ') ∧
    complexes κ' !! "kInt" = Some (RtoC 5 * Cplx 1.311 2.289e-9)%C ∧
    complexes κ' !! "rho"
      = Some (RtoC 5 * Cplx 1.311 2.289e-9 * RtoC 1 / RtoC (5 * 1))%C ∧
    complexes κ' !! "ref_ind" = Some (Cplx 1.311 2.289e-9) ∧
    ints κ' !! "muInt" = Some 1%Z ∧ ints κ' !! "muExt" = Some 1%Z ∧
    arrays κ' = arrays Sample2.constants.
Proof.
  apply (material_constants Sample2.constants 5 (Cplx 1.311 2.289e-9));
    [reflexivity | reflexivity | lra].
Defined.

(** X13.  With [kExt = 0], cell 5 raises [ZeroDivisionError] from its
    last statement: [muInt], [muExt] and [kInt] are bound by then, [rho]
    is not. *)
Theorem rho_division_by_zero κ m :
  floats (arrays κ) !! "kExt" = Some 0 →
  complexes κ !! "ref_ind" = Some m →
  ∃ κ', Cell5.run κ = (Throw ZeroDivisionError, κ') ∧
    complexes κ' !! "kInt" = Some (Cplx 0 0) ∧
    ints κ' !! "muInt" = Some 1%Z ∧ ints κ' !! "muExt" = Some 1%Z ∧
    complexes κ' !! "rho" = complexes κ !! "rho".
Proof.
  intros Hk Hm.
  rewrite (Cell5_run_rho κ 0 m Hk Hm).
  assert ((RtoC 0 * m)%C = Cplx 0 0) as Ek.
  { apply complex_eq; simpl; ring. }
  eexists. split.
  { apply kassign_Throw. rewrite (Cell5_rho κ 0 m Hk).
    replace (0 * 1) with 0 by ring. apply complex_div_float_zero. }
  cbn. rewrite Ek. repeat split.
  - apply lookup_insert_eq.
  - rewrite lookup_insert_ne by done. apply lookup_insert_eq.
  - apply lookup_insert_eq.
  - by rewrite lookup_insert_ne by done.
Qed.

Lemma rho_division_by_zero_sample :
  ∃ κ', Cell5.run Sample2.constants_k0 = (Throw ZeroDivisionError, κ') ∧
    complexes κ' !! "kInt" = Some (Cplx 0 0) ∧
    ints κ' !! "muInt" = Some 1%Z ∧ ints κ' !! "muExt" = Some 1%Z ∧
    complexes κ' !! "rho" = complexes Sample2.constants_k0 !! "rho".
Proof.
  apply (rho_division_by_zero Sample2.constants_k0 (Cplx 1.311 2.289e-9));
    reflexivity.
Defined.

(** ** Cell 7: the incident waves and their traces *)

Lemma Cexp_phase k x0 :
  Cexp (Ci * RtoC k * RtoC x0) = Cplx (cos (k * x0)) (sin (k * x0)).
Proof.
  unfold Cexp. simpl.
  replace ((0 * k - 1 * 0) * x0 - (0 * 0 + 1 * k) * 0) with 0 by ring.
  replace ((0 * k - 1 * 0) * 0 + (0 * 0 + 1 * k) * x0) with (k * x0) by ring.
  rewrite exp_0. apply complex_eq; simpl; ring.
Qed.

Lemma Cabs_phase t : Cabs (Cplx (cos t) (sin t)) = 1.
Proof.
  unfold Cabs; simpl.
  replace (cos t * cos t + sin t * sin t) with 1.
  - apply sqrt_1.
  - pose proof (sin2_cos2 t) as H. unfold Rsqr in H. lra.
Qed.



(** X15.  With [kExt] not zero, each trace function writes a vector
    with no component along the polarization of its wave: the third
    component of [evalIncDirichletTrace_z] and of
    [evalIncNeumannTrace_y] is zero, and so is the second component of
    [evalIncDirichletTrace_y] and of [evalIncNeumannTrace_z]. *)
Theorem traces_polarization e k x n d :
  floats e !! "kExt" = Some k →
  k ≠ 0 →
  ∃ dz dy nz ny,
    Cell7.evalIncDirichletTrace_z e x n d = Ok dz ∧ vz dz = Cplx 0 0 ∧
    Cell7.evalIncDirichletTrace_y e x n d = Ok dy ∧ vy dy = Cplx 0 0 ∧
    Cell7.evalIncNeumannTrace_z e x n d = Ok nz ∧ vy nz = Cplx 0 0 ∧
    Cell7.evalIncNeumannTrace_y e x n d = Ok ny ∧ vz ny = Cplx 0 0.
Proof.
  intros Hk Hk0.
  unfold Cell7.evalIncDirichletTrace_z, Cell7.evalIncDirichletTrace_y,
    Cell7.evalIncNeumannTrace_z, Cell7.evalIncNeumannTrace_y,
    Cell7.incident_field_z, Cell7.incident_field_y, load.
  rewrite Hk. cbn -[Cexp].
  do 4 eexists.
  repeat (split; [reflexivity|]).
  split; [apply complex_eq; simpl; ring|].
  repeat (split; [reflexivity|]).
  split; [apply complex_eq; simpl; ring|].
  repeat (split; [reflexivity|]).
  split; [apply complex_eq; simpl; by field|].
  repeat (split; [reflexivity|]).
  apply complex_eq; simpl; by field.
Qed.

Lemma traces_polarization_sample :
  ∃ dz dy nz ny,
    Cell7.evalIncDirichletTrace_z Sample.fields (Vec3 2 0 1) (Vec3 0 1 0) 0%Z
    = Ok dz ∧ vz dz = Cplx 0 0 ∧
    Cell7.evalIncDirichletTrace_y Sample.fields (Vec3 2 0 1) (Vec3 0 1 0) 0%Z
    = Ok dy ∧ vy dy = Cplx 0 0 ∧
    Cell7.evalIncNeumannTrace_z Sample.fields (Vec3 2 0 1) (Vec3 0 1 0) 0%Z
    = Ok nz ∧ vy nz = Cplx 0 0 ∧
    Cell7.evalIncNeumannTrace_y Sample.fields (Vec3 2 0 1) (Vec3 0 1 0) 0%Z
    = Ok ny ∧ vz ny = Cplx 0 0.
Proof.
  apply (traces_polarization Sample.fields 5 (Vec3 2 0 1) (Vec3 0 1 0) 0%Z);
    [reflexivity | lra].
Defined.

(** ** Cell 18: the Mie phase function *)

Lemma P11Mie_shape e n s1 s2 :
  carrays e !! "s1" = Some s1 → carrays e !! "s2" = Some s2 →
  length s1 = n → length s2 = n →
  has_shape (Cell18.P11Mie e) n
    (λ i, 1 / 2 * (Spec.Cmod2 (s1 !!! i) + Spec.Cmod2 (s2 !!! i))).
Proof.
  intros H1 H2 N1 N2. unfold Cell18.P11Mie. cbv zeta.
  eapply has_shape_ext; [shape|].
  intros i _. cbv beta. rewrite !Cabs_pow2. simpl. lra.
Qed.

(** X17.  The Mie amplitudes [s1], [s2] cover the first angles only.
    When [A12] and [A21] vanish and, over those angles, the moduli of
    [A11] and [A22] are those of [s2] and [s1], the array [P11Mie] of
    cell 18 is the array [S11] of cell 17 cut to the length of [s1]. *)
Theorem P11Mie_is_S11 e a11 a12 a21 a22 s1 s2 :
  carrays e !! "A11" = Some a11 → carrays e !! "A12" = Some a12 →
  carrays e !! "A21" = Some a21 → carrays e !! "A22" = Some a22 →
  carrays e !! "s1" = Some s1 → carrays e !! "s2" = Some s2 →
  length a12 = length a11 → length a21 = length a11 →
  length a22 = length a11 → length s2 = length s1 →
  Forall (λ z, z = Cplx 0 0) a12 → Forall (λ z, z = Cplx 0 0) a21 →
  Forall2 (λ z w, Cabs z = Cabs w) (take (length s2) a11) s2 →
  Forall2 (λ z w, Cabs z = Cabs w) (take (length s1) a22) s1 →
  ∃ e' S P, (Cell17.run ;; Cell18.bind_P11Mie)%stmt e = (Ok (), e') ∧
    farrays e' !! "S11" = Some S ∧ farrays e' !! "P11Mie" = Some P ∧
    length S = length a11 ∧ length P = length s1 ∧
    P = take (length s1) S.
Proof.
  intros H11 H12 H21 H22 Hs1 Hs2 N12 N21 N22 Ns Z12 Z21 M11 M22.
  pose proof (Forall2_length _ _ _ M11) as L11.
  rewrite length_take in L11.
  destruct (Cell17_run_Ok e (length a11) a11 a12 a21 a22)
    as (e1 & Hrun & Hc & _ & HS); try done.
  destruct (Cell17_run_lengths e (length a11) a11 a12 a21 a22)
    as (e1' & Hrun' & HL); try done.
  assert (e1' = e1) as -> by congruence.
  destruct (HL "S11") as (S & HS11 & LS); [set_solver|].
  destruct (P11Mie_shape e1 (length s1) s1 s2) as (p & Ep & Lp & Hp);
    rewrite ?Hc; try done.
  exists (bind_farray "P11Mie" p e1), S, p. split.
  { rewrite (then_Ok _ _ _ _ Hrun). by apply assign_Ok. }
  split; [by rewrite lookup_bind_farray_ne|].
  split; [apply lookup_bind_farray_eq|].
  split; [done|]. split; [done|].
  apply list_eq. intros i.
  destruct (decide (i < length s1)%nat) as [Hi|Hi].
  2:{ rewrite !lookup_ge_None_2; [done|..]; rewrite ?length_take; lia. }
  assert (i < length a11)%nat as Hi' by lia.
  rewrite (Hp i Hi), lookup_take_lt by done.
  specialize (HS i Hi').
  pose proof (phase_lookup _ _ _ _ _ _ "S11" _ HS ltac:(in_phase)) as E.
  unfold entry in E. rewrite HS11 in E. simpl in E. rewrite E. f_equal.
  assert (a12 !!! i = Cplx 0 0) as ->.
  { destruct (lookup_lt_is_Some_2 a12 i) as [z Hz]; [lia|].
    rewrite (list_lookup_total_correct _ _ _ Hz).
    by apply (proj1 (Forall_lookup _ _) Z12 i z). }
  assert (a21 !!! i = Cplx 0 0) as ->.
  { destruct (lookup_lt_is_Some_2 a21 i) as [z Hz]; [lia|].
    rewrite (list_lookup_total_correct _ _ _ Hz).
    by apply (proj1 (Forall_lookup _ _) Z21 i z). }
  assert (∀ (a s : list complex),
            Forall2 (λ z w, Cabs z = Cabs w) (take (length s) a) s →
            (i < length s)%nat → (i < length a)%nat →
            Spec.Cmod2 (a !!! i) = Spec.Cmod2 (s !!! i)) as Hmod.
  { intros a s M Hs Ha.
    destruct (lookup_lt_is_Some_2 a i Ha) as [z Hz].
    assert (take (length s) a !! i = Some z) as Hz'
      by by rewrite lookup_take_lt.
    destruct (Forall2_lookup_l _ _ _ _ _ M Hz') as (w & Hw & Hzw).
    rewrite (list_lookup_total_correct _ _ _ Hz),
      (list_lookup_total_correct _ _ _ Hw).
    by rewrite <- !Cabs_pow2, Hzw. }
  rewrite <- (Hmod a11 s2 M11), <- (Hmod a22 s1 M22) by lia.
  unfold Spec.S11, Spec.Cmod2; simpl. lra.
Qed.

Lemma P11Mie_is_S11_sample :
  ∃ e' S P, (Cell17.run ;; Cell18.bind_P11Mie)%stmt Sample2.sphere_mie
            = (Ok (), e') ∧
    farrays e' !! "S11" = Some S ∧ farrays e' !! "P11Mie" = Some P ∧
    length S = 2%nat ∧ length P = 1%nat ∧ P = take 1 S.
Proof.
  apply (P11Mie_is_S11 Sample2.sphere_mie Sample.A11 Sample2.zeros
           Sample2.zeros Sample.A22 [Cplx 1 (-1)] [Cplx 2 1]);
    try reflexivity; try by repeat constructor.
  - constructor; [|constructor]. unfold Cabs; simpl. f_equal. ring.
  - constructor; [|constructor]. unfold Cabs; simpl. f_equal. ring.
Defined.

(** ** Cell 19: the plotted data *)

Lemma INR_1800 : INR 1800 = 1800.
Proof. rewrite INR_IZR_INZ. reflexivity. Qed.

(** The first 1801 angles of cell 14 are the grid of step [π/1800] on
    the half turn. *)
Lemma half_turn th :
  th = np.linspace 0 (2 * PI) 3601 →
  length (take 1801 th) = 1801%nat ∧
  ∀ i, (i < 1801)%nat →
    take 1801 th !! i = Some (INR i * PI / 1800) ∧
    0 <= INR i * PI / 1800 <= PI.
Proof.
  intros ->. split.
  - rewrite length_take, length_linspace. lia.
  - intros i Hi. split.
    + rewrite lookup_take_lt by lia.
      rewrite lookup_linspace by lia. f_equal.
      replace (3601 - 1)%nat with 3600%nat by lia.
      rewrite INR_3600. field.
    + pose proof PI_RGT_0.
      assert (0 <= INR i <= 1800) as [? ?].
      { split; [apply pos_INR|]. rewrite <- INR_1800. apply le_INR. lia. }
      split.
      * apply Rmult_le_pos; [nra | lra].
      * apply Rmult_le_reg_r with 1800; [lra|]. field_simplify. nra.
Qed.

(** The ordinates of the curves are squared moduli. *)
Lemma squared_moduli_all (a : list complex) i :
  (i < length a)%nat →
  ∃ z, a !! i = Some z ∧
    ((λ v, v ^ 2) <$> (Cabs <$> a)) !! i = Some (Spec.Cmod2 z).
Proof.
  intros Hi. destruct (lookup_lt_is_Some_2 a i Hi) as [z Hz].
  exists z. split; [done|].
  by rewrite !list_lookup_fmap, Hz, <- Cabs_pow2.
Qed.

Lemma squared_moduli (a : list complex) n i :
  (i < n)%nat → (n ≤ length a)%nat →
  ∃ z, a !! i = Some z ∧
    ((λ v, v ^ 2) <$> (Cabs <$> take n a)) !! i = Some (Spec.Cmod2 z).
Proof.
  intros Hi Hn.
  destruct (lookup_lt_is_Some_2 a i) as [z Hz]; [lia|].
  exists z. split; [done|].
  by rewrite !list_lookup_fmap, lookup_take_lt, Hz, <- Cabs_pow2 by lia.
Qed.


